(** * SkillGapMasr: ingestion and retrieval pipeline

    A shallow embedding of [config.py], [ingest.py] and [rag_engine.py].

    Python [str] values are sequences of Unicode code points; they are
    modelled as lists of code points ([N]).  Calls into the outside world
    (file loaders, the embedding model, the vector database, the
    chat-completion service) may raise; their results are carried in
    [outcome].  The third-party classes the source instantiates
    ([RecursiveCharacterTextSplitter], [Chroma]) are modelled in modules of
    their own, with the arguments the source passes to them. *)

From Stdlib Require Import String Ascii DecimalString.
From Stdlib Require Import List ZArith NArith Lia Bool Sorted.
Import ListNotations.

Set Implicit Arguments.

(* ================================================================== *)
(** ** Text *)

Definition char := N.
Definition text := list char.

(** An ASCII literal as a Python string. *)
Definition lit (s : string) : text :=
  map N_of_ascii (list_ascii_of_string s).

Definition len (t : text) : Z := Z.of_nat (length t).

Fixpoint text_eqb (a b : text) : bool :=
  match a, b with
  | [], [] => true
  | x :: a', y :: b' => N.eqb x y && text_eqb a' b'
  | _, _ => false
  end.

(** [bool(s)] of a Python string: the empty string is falsy. *)
Definition truthy (t : text) : bool :=
  match t with [] => false | _ :: _ => true end.

(** [p] is a prefix of [t]. *)
Fixpoint starts_with (p t : text) : bool :=
  match p, t with
  | [], _ => true
  | _ :: _, [] => false
  | a :: p', b :: t' => N.eqb a b && starts_with p' t'
  end.

(** [p in t]: [p] occurs in [t] as a contiguous run. *)
Fixpoint occurs (p t : text) : bool :=
  starts_with p t || match t with [] => false | _ :: t' => occurs p t' end.

(** [sep.join(parts)]. *)
Fixpoint join (sep : text) (parts : list text) : text :=
  match parts with
  | [] => []
  | [p] => p
  | p :: ps => p ++ sep ++ join sep ps
  end.

(** [str.isspace] on one code point: the code points Python's [str.strip]
    removes. *)
Definition is_space (c : char) : bool :=
  ((9 <=? c) && (c <=? 13) || (28 <=? c) && (c <=? 32) ||
   (c =? 133) || (c =? 160) || (c =? 5760) ||
   (8192 <=? c) && (c <=? 8202) || (c =? 8232) || (c =? 8233) ||
   (c =? 8239) || (c =? 8287) || (c =? 12288))%N.

Fixpoint lstrip (t : text) : text :=
  match t with
  | [] => []
  | c :: t' => if is_space c then lstrip t' else t
  end.

Definition rstrip (t : text) : text := rev (lstrip (rev t)).

Definition strip (t : text) : text := rstrip (lstrip t).

(** A text that neither starts nor ends with white space. *)
Definition no_outer_space (t : text) : Prop :=
  lstrip t = t /\ lstrip (rev t) = rev t.

(** What [strip] leaves of a text, as a list: nothing when only white space
    was there. *)
Definition stripped_chunk (t : text) : list text :=
  if truthy (strip t) then [strip t] else [].

(** The text a list of runs came from: the separator goes back between
    consecutive runs. *)
Definition rejoin (sep : text) (runs : list text) : text :=
  match runs with
  | [] => []
  | p0 :: ps => p0 ++ concat (map (fun p => sep ++ p) ps)
  end.

(** [t] is a run of [s]: [s = pre ++ t ++ post]. *)
Definition infix_of (t s : text) : Prop :=
  exists pre post, s = pre ++ t ++ post.

(** A chunk cut from [t]: not empty, stripped, and a run of [t]. *)
Definition chunk_of (t ch : text) : Prop :=
  ch <> [] /\ no_outer_space ch /\ infix_of ch t.








(* ================================================================== *)
(** ** Exceptions and results *)

Inductive exn_kind :=
| FileNotFoundError
| ValueError
| IndexError
| KeyError
| ExternalError.

(** An exception: its class and [str(e)]. *)
Record exn := Exn { exn_class : exn_kind; exn_str : text }.

Inductive outcome (A : Type) :=
| Ok (a : A)
| Raise (e : exn).
Arguments Ok {A} a.
Arguments Raise {A} e.

Definition bind {A B} (m : outcome A) (k : A -> outcome B) : outcome B :=
  match m with
  | Ok a => k a
  | Raise e => Raise e
  end.

Notation "x <- m ;; k" := (bind m (fun x => k))
  (at level 61, m at next level, right associativity).

(* ================================================================== *)
(** ** config.py *)

Module config.
Definition CHUNK_SIZE : Z := 500.
Definition CHUNK_OVERLAP : Z := 50.
Definition RETRIEVAL_K : nat := 5.
Definition DOC_TYPE_JOB : text := lit "job_description".
Definition DOC_TYPE_CV : text := lit "student_cv".
End config.

(* ================================================================== *)
(** ** Documents *)

(** A metadata value: a string, or an integer such as a PDF page number. *)
Inductive mvalue :=
| MStr (s : text)
| MInt (z : Z).

Definition mvalue_eqb (a b : mvalue) : bool :=
  match a, b with
  | MStr s, MStr t => text_eqb s t
  | MInt x, MInt y => Z.eqb x y
  | _, _ => false
  end.

(** A metadata dict, keys in insertion order. *)
Definition metadata := list (string * mvalue).

Fixpoint md_get (k : string) (m : metadata) : option mvalue :=
  match m with
  | [] => None
  | (k', v) :: m' => if String.eqb k k' then Some v else md_get k m'
  end.

(** [m[k] = v]: overwrite in place, or append a new key. *)
Fixpoint md_set (k : string) (v : mvalue) (m : metadata) : metadata :=
  match m with
  | [] => [(k, v)]
  | (k', v') :: m' =>
      if String.eqb k k' then (k, v) :: m' else (k', v') :: md_set k v m'
  end.

Record Document := mkDocument {
  page_content : text;
  doc_metadata : metadata
}.

(** The [doc_type] label of a document. *)
Definition has_doc_type (ty : text) (d : Document) : Prop :=
  md_get "doc_type" (doc_metadata d) = Some (MStr ty).

(** A document whose [source_name] is a string. *)
Definition has_source_name (d : Document) : Prop :=
  exists name, md_get "source_name" (doc_metadata d) = Some (MStr name).

(** One of the two labels ingestion hands out. *)
Definition known_doc_type (d : Document) : Prop :=
  has_doc_type config.DOC_TYPE_JOB d \/ has_doc_type config.DOC_TYPE_CV d.

(* ================================================================== *)
(** ** RecursiveCharacterTextSplitter

    The splitter of [langchain_text_splitters], with the defaults the
    source leaves in place: [keep_separator=True], [strip_whitespace=True],
    [is_separator_regex=False], [length_function=len]. *)

Module Splitter.
Section Splitter.

Local Open Scope Z_scope.

Variable chunk_size : Z.
Variable chunk_overlap : Z.

(** A chunk within the configured size. *)
Definition fits (c : text) : Prop := len c <= chunk_size.

(** [re.split("(sep)", t)] for a literal, non-empty [sep], without the
    captured separators: the runs between the leftmost non-overlapping
    occurrences of [sep].  [skip] counts the characters of a matched
    separator still to pass over, [cur] holds the current run reversed. *)
Fixpoint re_split_from (sep : text) (skip : nat) (cur : text) (t : text)
  : list text :=
  match t with
  | [] => [rev cur]
  | c :: t' =>
      match skip with
      | S n => re_split_from sep n cur t'
      | O =>
          if starts_with sep t
          then rev cur :: re_split_from sep (length sep - 1)%nat [] t'
          else re_split_from sep 0 (c :: cur) t'
      end
  end.

Definition re_split (sep t : text) : list text := re_split_from sep 0 [] t.

(** [_split_text_with_regex(text, separator, keep_separator=True)]: each
    separator stays at the start of the run that follows it; empty runs
    are dropped.  With the empty separator the text is split into its
    characters. *)
Definition split_text_with_regex (t sep : text) : list text :=
  let splits :=
    match sep with
    | [] => map (fun c => [c]) t
    | _ :: _ =>
        match re_split sep t with
        | [] => []
        | p0 :: ps => p0 :: map (fun p => sep ++ p) ps
        end
    end in
  filter truthy splits.

(** [_join_docs]: join, strip, and drop an empty result. *)
Definition join_docs (docs : list text) (separator : text) : option text :=
  let t := strip (join separator docs) in
  if truthy t then Some t else None.

(** [docs.append(doc)] guarded by [if doc is not None]. *)
Definition opt_list (o : option text) : list text :=
  match o with Some t => [t] | None => [] end.

(** [separator_len if b else 0]. *)
Definition sep_if (b : bool) (separator_len : Z) : Z :=
  if b then separator_len else 0.

(** The inner [while] of [_merge_splits]: drop runs from the front of
    [current_doc] until the overlap budget holds and [d] fits. *)
Fixpoint shrink (separator_len _len : Z) (current_doc : list text)
         (total : Z) : outcome (list text * Z) :=
  if (total >? chunk_overlap)
     || ((total + _len + sep_if (0 <? length current_doc)%nat separator_len
            >? chunk_size) && (total >? 0))
  then
    match current_doc with
    | [] => Raise (Exn IndexError (lit "list index out of range"))
    | x :: rest =>
        shrink separator_len _len rest
          (total - (len x
                    + sep_if (1 <? length current_doc)%nat separator_len))
    end
  else Ok (current_doc, total).

(** The [for d in splits] loop of [_merge_splits]. *)
Fixpoint merge_loop (separator : text) (splits docs current_doc : list text)
         (total : Z) : outcome (list text) :=
  match splits with
  | [] => Ok (docs ++ opt_list (join_docs current_doc separator))
  | d :: rest =>
      let separator_len := len separator in
      let _len := len d in
      st <-
        (if total + _len + sep_if (0 <? length current_doc)%nat separator_len
              >? chunk_size
         then
           if (0 <? length current_doc)%nat
           then
             let docs' := docs ++ opt_list (join_docs current_doc separator) in
             ct <- shrink separator_len _len current_doc total ;;
             Ok (docs', fst ct, snd ct)
           else Ok (docs, current_doc, total)
         else Ok (docs, current_doc, total)) ;;
      let '(docs1, cur1, total1) := st in
      let cur2 := cur1 ++ [d] in
      merge_loop separator rest docs1 cur2
        (total1 + (_len + sep_if (1 <? length cur2)%nat separator_len))
  end.

Definition merge_splits (splits : list text) (separator : text)
  : outcome (list text) :=
  merge_loop separator splits [] [] 0.

(** Flush [_good_splits] into [final_chunks]. *)
Definition flush (good final : list text) : outcome (list text) :=
  match good with
  | [] => Ok final
  | _ :: _ =>
      merged <- merge_splits good [] ;;
      Ok (final ++ merged)
  end.

(** The [for s in splits] loop of [_split_text].  [recur] is the
    recursive call on [new_separators], absent when that list is empty. *)
Fixpoint process_splits (recur : option (text -> outcome (list text)))
         (splits good final : list text) : outcome (list text) :=
  match splits with
  | [] => flush good final
  | s :: rest =>
      if len s <? chunk_size
      then process_splits recur rest (good ++ [s]) final
      else
        final1 <- flush good final ;;
        match recur with
        | None => process_splits recur rest [] (final1 ++ [s])
        | Some f =>
            other_info <- f s ;;
            process_splits recur rest [] (final1 ++ other_info)
        end
  end.

(** [_split_text(text, separators)].  The scan for the first separator
    that is empty or occurs in the text and the recursion on the
    separators after it are one structural recursion; [last_sep] is
    [separators[-1]], used when no separator of the list applies. *)
Fixpoint split_text_from (last_sep : text) (separators : list text)
         (t : text) : outcome (list text) :=
  match separators with
  | [] => process_splits None (split_text_with_regex t last_sep) [] []
  | s :: new_separators =>
      match s with
      | [] => process_splits None (split_text_with_regex t []) [] []
      | _ :: _ =>
          if occurs s t
          then
            process_splits
              (match new_separators with
               | [] => None
               | _ :: _ => Some (split_text_from last_sep new_separators)
               end)
              (split_text_with_regex t s) [] []
          else split_text_from last_sep new_separators t
      end
  end.

Definition split_text (separators : list text) (t : text)
  : outcome (list text) :=
  split_text_from (last separators []) separators t.

(** The choice [_split_text] makes in its first loop: the first separator
    of the list that is empty or occurs in the text, as [separator], with
    [new_separators] (the separators after it; none after the empty
    separator); [None] when the loop ends without a [break]. *)
Fixpoint choose_separator (separators : list text) (t : text)
  : option (text * list text) :=
  match separators with
  | [] => None
  | s :: rest =>
      if negb (truthy s) then Some (s, [])
      else if occurs s t then Some (s, rest)
      else choose_separator rest t
  end.

(** The recursive call handed to the loop over the splits. *)
Definition recur_on (last_sep : text) (new_separators : list text)
  : option (text -> outcome (list text)) :=
  match new_separators with
  | [] => None
  | _ :: _ => Some (split_text_from last_sep new_separators)
  end.

(** [create_documents]: every chunk of a document carries a copy of the
    document's metadata. *)
Fixpoint split_documents (separators : list text) (documents : list Document)
  : outcome (list Document) :=
  match documents with
  | [] => Ok []
  | doc :: rest =>
      chunks <- split_text separators (page_content doc) ;;
      more <- split_documents separators rest ;;
      Ok (map (fun c => mkDocument c (doc_metadata doc)) chunks ++ more)
  end.

End Splitter.
End Splitter.

(* ================================================================== *)
(** ** ingest.py: chunk_documents *)

Definition nl : text := [10%N].

(** The [separators] argument of [chunk_documents]:
    ["\n\n", "\n", ". ", ", ", " ", ""]. *)
Definition separators : list text :=
  [nl ++ nl; nl; lit ". "; lit ", "; lit " "; lit ""].

Definition chunk_text (t : text) : outcome (list text) :=
  Splitter.split_text config.CHUNK_SIZE config.CHUNK_OVERLAP separators t.

Definition chunk_documents (documents : list Document)
  : outcome (list Document) :=
  Splitter.split_documents config.CHUNK_SIZE config.CHUNK_OVERLAP
    separators documents.

(* ================================================================== *)
(** ** Chroma

    The [langchain_chroma.Chroma] vector store as the source uses it: one
    named collection under the persist directory.  A record keeps the
    embedding of a chunk with the chunk itself; the collection lists its
    records in insertion order (every record is added under a fresh id, so
    an addition never overwrites an earlier record).  Similarity is left
    abstract: [nearer q a b] holds when [a] is at least as close to the
    query vector [q] as [b].  Reading and writing the collection itself
    is taken to succeed: of a search or an addition only the embedding can
    fail. *)

Module Chroma.
Section Chroma.

Variable Vec : Type.
Variable nearer : Vec -> Vec -> Vec -> bool.

Record record := mkRecord {
  rec_vector : Vec;
  rec_document : Document
}.

Definition collection := list record.

(** The persist directory: [None] while it does not exist. *)
Definition store := option collection.

Definition Embeddings := text -> outcome Vec.

(** [embed_documents]: the first failure aborts the batch. *)
Fixpoint embed_documents (embedding : Embeddings) (chunks : list Document)
  : outcome (list record) :=
  match chunks with
  | [] => Ok []
  | d :: rest =>
      v <- embedding (page_content d) ;;
      more <- embed_documents embedding rest ;;
      Ok (mkRecord v d :: more)
  end.

(** [Chroma.from_documents(documents, embedding, persist_directory,
    collection_name)]: gets or creates the named collection, embeds the
    documents and adds them to it. *)
Definition from_documents (chunks : list Document) (embedding : Embeddings)
           (c : collection) : outcome collection :=
  new <- embed_documents embedding chunks ;;
  Ok (c ++ new).

(** A [filter={key: value}] argument against a record's metadata. *)
Definition matches (key : string) (value : text) (r : record) : bool :=
  match md_get key (doc_metadata (rec_document r)) with
  | Some v => mvalue_eqb v (MStr value)
  | None => false
  end.

(** Stable insertion by closeness to the query: ties keep insertion
    order. *)
Fixpoint insert_ranked (q : Vec) (r : record) (rs : list record)
  : list record :=
  match rs with
  | [] => [r]
  | r' :: rs' =>
      if nearer q (rec_vector r') (rec_vector r)
      then r' :: insert_ranked q r rs'
      else r :: rs
  end.

Definition rank (q : Vec) (rs : list record) : list record :=
  fold_right (insert_ranked q) [] rs.

(** [similarity_search(query, k, filter)]. *)
Definition similarity_search (embedding : Embeddings) (c : collection)
           (query : text) (k : nat) (key : string) (value : text)
  : outcome (list Document) :=
  q <- embedding query ;;
  Ok (map rec_document (firstn k (rank q (filter (matches key value) c)))).

(** [get(where={key: value}, include=["documents", "metadatas"])]: the
    [documents] entry of the result, the texts of the matching records in
    insertion order. *)
Definition get_documents (c : collection) (key : string) (value : text)
  : list text :=
  map (fun r => page_content (rec_document r)) (filter (matches key value) c).

End Chroma.
End Chroma.

(* ================================================================== *)
(** ** ingest.py *)

(** What a directory holds, as the loaders see it. *)
Record Directory := mkDirectory {
  (** [DirectoryLoader(glob="**/*.txt", loader_cls=TextLoader).load()] *)
  txt_loader : outcome (list Document);
  (** [from langchain_community.document_loaders import PyPDFLoader]
      succeeds *)
  pypdf_available : bool;
  (** [directory.glob("**/*.pdf")]: each file's name with the result of
      [PyPDFLoader(path).load()] *)
  pdf_files : outcome (list (text * outcome (list Document)))
}.

(** A path with the directory found there, if any. *)
Record DirPath := mkDirPath {
  dir_path : text;
  dir_entry : option Directory
}.

Section Ingest.

Variable Vec : Type.

(** [Path(p).name] *)
Variable path_name : text -> text.

Definition set_tags (doc_type source_name : text) (doc : Document)
  : Document :=
  mkDocument (page_content doc)
    (md_set "source_name" (MStr source_name)
       (md_set "doc_type" (MStr doc_type) (doc_metadata doc))).

(** The loop over [txt_docs]: [doc.metadata["source"]] must be there. *)
Fixpoint tag_txt_docs (doc_type : text) (txt_docs : list Document)
  : outcome (list Document) :=
  match txt_docs with
  | [] => Ok []
  | doc :: rest =>
      match md_get "source" (doc_metadata doc) with
      | Some (MStr source) =>
          more <- tag_txt_docs doc_type rest ;;
          Ok (set_tags doc_type (path_name source) doc :: more)
      | Some (MInt _) =>
          Raise (Exn ExternalError
                   (lit "expected str, bytes or os.PathLike object, not int"))
      | None => Raise (Exn KeyError (lit "'source'"))
      end
  end.

(** The [try] around the text loader: any exception leaves the text
    files out. *)
Definition load_txt (d : Directory) (doc_type : text) : list Document :=
  match (txt_docs <- txt_loader d ;; tag_txt_docs doc_type txt_docs) with
  | Ok docs => docs
  | Raise _ => []
  end.

(** The loop over [pdf_files]: a file that fails to load is skipped. *)
Fixpoint load_pdf_files (doc_type : text)
         (files : list (text * outcome (list Document))) : list Document :=
  match files with
  | [] => []
  | (name, Ok pdf_docs) :: rest =>
      map (set_tags doc_type name) pdf_docs ++ load_pdf_files doc_type rest
  | (_, Raise _) :: rest => load_pdf_files doc_type rest
  end.

Definition load_pdf (d : Directory) (doc_type : text) : list Document :=
  if pypdf_available d
  then match pdf_files d with
       | Ok files => load_pdf_files doc_type files
       | Raise _ => []
       end
  else [].

Definition load_documents (directory : DirPath) (doc_type : text)
  : outcome (list Document) :=
  match dir_entry directory with
  | None =>
      Raise (Exn FileNotFoundError
               (lit "Directory not found: " ++ dir_path directory))
  | Some d => Ok (load_txt d doc_type ++ load_pdf d doc_type)
  end.

(** What [run_ingestion] reads from outside. *)
Record IngestWorld := mkIngestWorld {
  DATA_JOBS_DIR : DirPath;
  DATA_CVS_DIR : DirPath;
  (** [HuggingFaceEmbeddings(model_name=..., ...)] *)
  hf_embeddings : outcome (Chroma.Embeddings Vec)
}.

Definition create_embeddings (w : IngestWorld)
  : outcome (Chroma.Embeddings Vec) :=
  hf_embeddings w.

(** [CHROMA_PERSIST_DIR.mkdir(parents=True, exist_ok=True)] *)
Definition mkdir (st : Chroma.store Vec) : Chroma.collection Vec :=
  match st with
  | Some c => c
  | None => []
  end.

(** [create_vector_store]: the result with the store it leaves behind. *)
Definition create_vector_store (chunks : list Document)
           (embeddings : Chroma.Embeddings Vec) (st : Chroma.store Vec)
  : outcome (Chroma.collection Vec) * Chroma.store Vec :=
  let c := mkdir st in
  match Chroma.from_documents chunks embeddings c with
  | Ok c' => (Ok c', Some c')
  | Raise e => (Raise e, Some c)
  end.

(** [except FileNotFoundError] *)
Definition is_file_not_found (e : exn) : bool :=
  match exn_class e with
  | FileNotFoundError => true
  | _ => false
  end.

(** [run_ingestion]: [Ok None] is the Python [None]; the second
    component is the store after the call. *)
Definition run_ingestion (w : IngestWorld) (st : Chroma.store Vec)
  : outcome (option (Chroma.collection Vec)) * Chroma.store Vec :=
  match load_documents (DATA_JOBS_DIR w) config.DOC_TYPE_JOB with
  | Raise e => if is_file_not_found e then (Ok None, st) else (Raise e, st)
  | Ok job_docs =>
      match load_documents (DATA_CVS_DIR w) config.DOC_TYPE_CV with
      | Raise e =>
          if is_file_not_found e then (Ok None, st) else (Raise e, st)
      | Ok cv_docs =>
          let all_documents := job_docs ++ cv_docs in
          match all_documents with
          | [] => (Ok None, st)
          | _ :: _ =>
              match chunk_documents all_documents with
              | Raise e => (Raise e, st)
              | Ok chunks =>
                  match create_embeddings w with
                  | Raise e => (Raise e, st)
                  | Ok embeddings =>
                      match create_vector_store chunks embeddings st with
                      | (Ok vector_store, st') => (Ok (Some vector_store), st')
                      | (Raise e, st') => (Raise e, st')
                      end
                  end
              end
          end
      end
  end.

End Ingest.

(* ================================================================== *)
(** ** rag_engine.py *)

(** [str(v)] for a metadata value inside an f-string. *)
Definition str_of (v : mvalue) : text :=
  match v with
  | MStr s => s
  | MInt z => lit (DecimalString.NilZero.string_of_int (Z.to_int z))
  end.

(** Calls that leave the process, in the order they are made. *)
Inductive event :=
| EmbedQuery (query : text)
| ChainInvoke (role job_context cv_text : text).

(** The message [analyze_gap] returns when retrieval finds nothing; it
    opens with the warning sign U+26A0 U+FE0F. *)
Definition NO_JOBS_MESSAGE : text :=
  [9888%N; 65039%N] ++
  lit " **No relevant job descriptions found!**" ++ nl ++ nl ++
  lit "Please make sure you've run the ingestion pipeline:" ++ nl ++
  lit "```bash" ++ nl ++ lit "python ingest.py" ++ nl ++ lit "```" ++ nl ++
  nl ++
  lit "And that you have job description files in `data/market_jobs/`".

(** The string built in the [except] branch of [analyze_gap]; it opens
    with the cross mark U+274C. *)
Definition analysis_error_message (e : exn) : text :=
  [10060%N] ++ lit " **Error generating analysis:** " ++ exn_str e ++
  nl ++ nl ++
  lit "This might be a temporary API issue. Please try again.".

Definition PLACEHOLDER_KEY : text := lit "your_api_key_here".

(** The [ValueError] of the key check in [__init__]. *)
Definition missing_key_error : exn :=
  Exn ValueError
    (lit "GROQ_API_KEY not set!" ++ nl ++
     lit "1. Get a FREE API key from: https://console.groq.com/keys" ++ nl ++
     lit "2. Add GROQ_API_KEY=your_key to your .env file").

Definition REBUILD_INSTRUCTION : text := lit "Please run: python ingest.py".

(** The rule line between two job blocks of the context. *)
Definition JOB_SEPARATOR : text := nl ++ nl ++ lit "---" ++ nl ++ nl.

Definition SOURCE_PREFIX : text := lit "**Source:** ".

Section RagEngine.

Variable Vec : Type.
Variable nearer : Vec -> Vec -> Vec -> bool.

(** [str(config.CHROMA_PERSIST_DIR)] *)
Variable CHROMA_PERSIST_DIR : text.

(** The chain [prompt | llm | StrOutputParser()] as a function of the
    three template inputs. *)
Definition Chain := text -> text -> text -> outcome text.

(** What [SkillGapAnalyzer.__init__] reads from outside. *)
Record Env := mkEnv {
  (** [import streamlit as st; st.secrets.get("GROQ_API_KEY", None)] *)
  st_secrets_get : outcome (option text);
  (** [os.getenv("GROQ_API_KEY")] *)
  getenv : option text;
  (** [HuggingFaceEmbeddings(model_name=..., ...)] *)
  hf_embeddings_init : outcome (Chroma.Embeddings Vec);
  (** [Chroma(persist_directory=..., ...)] on an existing directory *)
  chroma_init : outcome unit;
  (** [ChatGroq(model=..., api_key=groq_api_key)] piped after the prompt *)
  chat_groq : text -> outcome Chain
}.

Record SkillGapAnalyzer := mkAnalyzer {
  embeddings : Chroma.Embeddings Vec;
  chain : Chain
}.

(** [a or b] on optional strings. *)
Definition py_or (a b : option text) : option text :=
  match a with
  | Some s => if truthy s then a else b
  | None => b
  end.

(** The [try]/[except] that resolves the key. *)
Definition groq_api_key (env : Env) : option text :=
  match st_secrets_get env with
  | Ok secret => py_or secret (getenv env)
  | Raise _ => getenv env
  end.

(** [not groq_api_key or groq_api_key == "your_api_key_here"] *)
Definition key_rejected (key : option text) : bool :=
  match key with
  | None => true
  | Some s => negb (truthy s) || text_eqb s PLACEHOLDER_KEY
  end.

Definition missing_store_error : exn :=
  Exn FileNotFoundError
    (lit "Vector store not found at " ++ CHROMA_PERSIST_DIR ++ nl ++
     REBUILD_INSTRUCTION).

(** [SkillGapAnalyzer.__init__] *)
Definition init (env : Env) (st : Chroma.store Vec)
  : outcome SkillGapAnalyzer :=
  let key := groq_api_key env in
  if key_rejected key then Raise missing_key_error
  else
    emb <- hf_embeddings_init env ;;
    match st with
    | None => Raise missing_store_error
    | Some _ =>
        _ <- chroma_init env ;;
        ch <- chat_groq env (match key with Some s => s | None => [] end) ;;
        Ok (mkAnalyzer emb ch)
    end.

(** [get_relevant_jobs(role, k)] with the calls it makes. *)
Definition get_relevant_jobs_k (self : SkillGapAnalyzer)
           (c : Chroma.collection Vec) (role : text) (k : nat)
  : outcome (list Document) * list event :=
  (Chroma.similarity_search nearer (embeddings self) c role k
     "doc_type" config.DOC_TYPE_JOB,
   [EmbedQuery role]).

(** [get_relevant_jobs(role, k=None)] *)
Definition get_relevant_jobs (self : SkillGapAnalyzer)
           (c : Chroma.collection Vec) (role : text) (k : option nat)
  : outcome (list Document) * list event :=
  get_relevant_jobs_k self c role
    (match k with Some k' => k' | None => config.RETRIEVAL_K end).

(** [doc.metadata.get('source_name', 'Unknown')] inside the f-string. *)
Definition source_label (doc : Document) : text :=
  match md_get "source_name" (doc_metadata doc) with
  | Some v => str_of v
  | None => lit "Unknown"
  end.

Definition format_job (doc : Document) : text :=
  SOURCE_PREFIX ++ source_label doc ++ nl ++ nl ++ page_content doc.

Definition job_context_of (relevant_jobs : list Document) : text :=
  join JOB_SEPARATOR (map format_job relevant_jobs).

(** [analyze_gap(cv_text, role)] with the calls it makes. *)
Definition analyze_gap (self : SkillGapAnalyzer) (c : Chroma.collection Vec)
           (cv_text role : text) : outcome text * list event :=
  match get_relevant_jobs self c role None with
  | (Raise e, tr) => (Raise e, tr)
  | (Ok relevant_jobs, tr) =>
      match relevant_jobs with
      | [] => (Ok NO_JOBS_MESSAGE, tr)
      | _ :: _ =>
          let job_context := job_context_of relevant_jobs in
          let tr' := tr ++ [ChainInvoke role job_context cv_text] in
          match chain self role job_context cv_text with
          | Ok report => (Ok report, tr')
          | Raise e => (Ok (analysis_error_message e), tr')
          end
      end
  end.

End RagEngine.

(** The job records of a collection, as the filter of the search sees
    them. *)
Definition job_records (Vec : Type) (c : Chroma.collection Vec)
  : list (Chroma.record Vec) :=
  filter (Chroma.matches "doc_type" config.DOC_TYPE_JOB) c.

(* ================================================================== *)
(** ** rag_engine.py: get_all_job_titles *)

(** [s.split("\n")[0]] *)
Fixpoint first_line (t : text) : text :=
  match t with
  | [] => []
  | c :: t' => if (c =? 10)%N then [] else c :: first_line t'
  end.

(** The text after the first colon, if there is one. *)
Fixpoint after_colon (t : text) : option text :=
  match t with
  | [] => None
  | c :: t' => if (c =? 58)%N then Some t' else after_colon t'
  end.

(** [s.split(":", 1)[-1]] *)
Definition split_colon_last (t : text) : text :=
  match after_colon t with
  | Some rest => rest
  | None => t
  end.

(** The order of Python strings: code point by code point. *)
Fixpoint text_compare (a b : text) : comparison :=
  match a, b with
  | [], [] => Eq
  | [], _ :: _ => Lt
  | _ :: _, [] => Gt
  | x :: a', y :: b' =>
      match N.compare x y with
      | Eq => text_compare a' b'
      | Lt => Lt
      | Gt => Gt
      end
  end.

Definition text_lt (a b : text) : Prop := text_compare a b = Lt.

(** [titles.add(title)], the set kept as the list [sorted(list(titles))]
    returns: ascending and without duplicates. *)
Fixpoint add_title (title : text) (titles : list text) : list text :=
  match titles with
  | [] => [title]
  | x :: rest =>
      match text_compare title x with
      | Lt => title :: titles
      | Eq => titles
      | Gt => x :: add_title title rest
      end
  end.

Definition JOB_TITLE_MARKER : text := lit "JOB TITLE:".

Section JobTitles.

Variable Vec : Type.

(** [str.upper] *)
Variable str_upper : text -> text.

(** The body of the loop over the documents: the title a document
    contributes, if any. *)
Definition title_of (doc : text) : option text :=
  if truthy doc
  then
    let line := first_line doc in
    if occurs JOB_TITLE_MARKER (str_upper line)
    then Some (strip (split_colon_last line))
    else None
  else None.

Fixpoint collect_titles (docs : list text) (titles : list text)
  : list text :=
  match docs with
  | [] => titles
  | doc :: rest =>
      collect_titles rest
        (match title_of doc with
         | Some title => add_title title titles
         | None => titles
         end)
  end.

(** [get_all_job_titles] on the result of the store's [get]: any exception
    gives the empty list. *)
Definition get_all_job_titles_from (results : outcome (list text))
  : list text :=
  match results with
  | Ok docs => collect_titles docs []
  | Raise _ => []
  end.

(** [get_all_job_titles] *)
Definition get_all_job_titles (c : Chroma.collection Vec) : list text :=
  get_all_job_titles_from
    (Ok (Chroma.get_documents c "doc_type" config.DOC_TYPE_JOB)).

End JobTitles.

(* ================================================================== *)
(** ** app.py

    The two button handlers of the page, as functions of what they read
    (environment, directories, store, session state) to what they show and
    leave behind. *)

(** What a handler puts on the page. *)
Inductive view :=
| EmptyCvWarning
| KeyNotConfigured
| Report (role report file_name : text)
| VectorStoreNotFound
| ErrorBox (message : text)
| RebuildSuccess.

(** [f"❌ Error: {str(e)}"] *)
Definition error_box (e : exn) : view :=
  ErrorBox ([10060%N] ++ lit " Error: " ++ exn_str e).

(** [s.replace(' ', '_')] *)
Definition replace_spaces (t : text) : text :=
  map (fun c => if (c =? 32)%N then 95%N else c) t.

Section App.

Variable Vec : Type.
Variable nearer : Vec -> Vec -> Vec -> bool.
Variable CHROMA_PERSIST_DIR : text.
Variable path_name : text -> text.

(** [str.lower] *)
Variable str_lower : text -> text.

(** [st.session_state]: the cached analyzer, if any. *)
Definition session := option (SkillGapAnalyzer Vec).

(** [selected_role], after the custom role has been looked at. *)
Definition select_role (selected custom_role : text) : text :=
  if truthy custom_role then custom_role else selected.

(** The [file_name] of the download button. *)
Definition report_file_name (selected_role : text) : text :=
  lit "skill_gap_report_" ++ replace_spaces (str_lower selected_role)
  ++ lit ".md".

(** The two [except] clauses around the analysis. *)
Definition analysis_failed (e : exn) : view :=
  if is_file_not_found e then VectorStoreNotFound else error_box e.

(** The records the store handle reads. *)
Definition contents (st : Chroma.store Vec) : Chroma.collection Vec :=
  match st with
  | Some c => c
  | None => []
  end.

(** The block under [if analyze_clicked]: the view, the session state
    left behind and the calls made.  The look-up of the secret is outside
    the [try]: its exception leaves the handler. *)
Definition on_analyze (env : Env Vec) (st : Chroma.store Vec)
           (ss : session) (selected_role cv_text : text)
  : outcome (view * session * list event) :=
  if negb (truthy (strip cv_text)) then Ok (EmptyCvWarning, ss, [])
  else
    secret <- st_secrets_get env ;;
    let api_key := py_or secret (getenv env) in
    if key_rejected api_key then Ok (KeyNotConfigured, ss, [])
    else
      match
        (match ss with
         | Some analyzer => Ok analyzer
         | None => init CHROMA_PERSIST_DIR env st
         end)
      with
      | Raise e => Ok (analysis_failed e, ss, [])
      | Ok analyzer =>
          match analyze_gap nearer analyzer (contents st) cv_text selected_role
          with
          | (Ok report, tr) =>
              Ok (Report selected_role report (report_file_name selected_role),
                  Some analyzer, tr)
          | (Raise e, tr) => Ok (analysis_failed e, Some analyzer, tr)
          end
      end.

(** The block under the rebuild button: the view, the store and the
    session state left behind. *)
Definition on_rebuild (w : IngestWorld Vec) (st : Chroma.store Vec)
           (ss : session) : view * Chroma.store Vec * session :=
  match run_ingestion path_name w st with
  | (Ok _, st') => (RebuildSuccess, st', None)
  | (Raise e, st') => (error_box e, st', ss)
  end.

End App.

(* ================================================================== *)
(** ** Sample data

    A small world to run the pipeline on: vectors are integers, a text is
    embedded as its length, and closeness is the absolute difference. *)

Module Sample.

Definition nearer (q a b : Z) : bool :=
  (Z.abs (a - q) <=? Z.abs (b - q))%Z.

Definition embed_len : Chroma.Embeddings Z := fun t => Ok (len t).

Definition embed_down : Chroma.Embeddings Z :=
  fun _ => Raise (Exn ExternalError (lit "embedding model unavailable")).

Definition job_text : text :=
  lit "JOB TITLE: Backend Developer" ++ nl ++ lit "Requires: Python, SQL".

Definition job_chunk : Document :=
  mkDocument job_text
    [("source"%string, MStr (lit "data/market_jobs/backend.txt"));
     ("doc_type"%string, MStr config.DOC_TYPE_JOB);
     ("source_name"%string, MStr (lit "backend.txt"))].

Definition cv_chunk : Document :=
  mkDocument (lit "SKILLS: Python")
    [("source"%string, MStr (lit "data/student_cvs/my_cv.txt"));
     ("doc_type"%string, MStr config.DOC_TYPE_CV);
     ("source_name"%string, MStr (lit "my_cv.txt"))].

Definition job_record : Chroma.record Z := Chroma.mkRecord 50%Z job_chunk.
Definition cv_record : Chroma.record Z := Chroma.mkRecord 14%Z cv_chunk.

Definition both : Chroma.collection Z := [job_record; cv_record].

Definition chain_echo : text -> text -> text -> outcome text :=
  fun _ job_context _ => Ok job_context.

Definition rate_limited : exn :=
  Exn ExternalError (lit "rate limit exceeded").

Definition chain_down : text -> text -> text -> outcome text :=
  fun _ _ _ => Raise rate_limited.

Definition analyzer : SkillGapAnalyzer Z := mkAnalyzer embed_len chain_echo.
Definition analyzer_llm_down : SkillGapAnalyzer Z :=
  mkAnalyzer embed_len chain_down.
Definition analyzer_embed_down : SkillGapAnalyzer Z :=
  mkAnalyzer embed_down chain_echo.

Definition role : text := lit "Backend Developer".
Definition cv_text : text := lit "SKILLS: Python".

Definition persist_dir : text := lit "/app/chroma_db".

(** No key anywhere, everything else in order. *)
Definition env_no_key : Env Z :=
  mkEnv (Raise (Exn ExternalError (lit "No secrets found"))) None
        (Ok embed_len) (Ok tt) (fun _ => Ok chain_echo).

Definition env_with_key : Env Z :=
  mkEnv (Ok None) (Some (lit "gsk_live"))
        (Ok embed_len) (Ok tt) (fun _ => Ok chain_echo).

Definition env_placeholder : Env Z :=
  mkEnv (Ok (Some [])) (Some PLACEHOLDER_KEY)
        (Ok embed_len) (Ok tt) (fun _ => Ok chain_echo).

(** The placeholder as Streamlit secret, a real key in the environment. *)
Definition env_secret_placeholder : Env Z :=
  mkEnv (Ok (Some PLACEHOLDER_KEY)) (Some (lit "gsk_live"))
        (Ok embed_len) (Ok tt) (fun _ => Ok chain_echo).

(** A key in the Streamlit secrets, none in the environment. *)
Definition env_secret_only : Env Z :=
  mkEnv (Ok (Some (lit "gsk_live"))) None
        (Ok embed_len) (Ok tt) (fun _ => Ok chain_echo).

(** A key, and nothing else that works. *)
Definition env_broken : Env Z :=
  mkEnv (Ok None) (Some (lit "gsk_live"))
        (Raise (Exn ExternalError (lit "embedding model unavailable")))
        (Raise (Exn ExternalError (lit "database is locked")))
        (fun _ => Raise (Exn ExternalError (lit "invalid api key"))).

(** [Path(p).name] for the sample paths: the text after the last [/]. *)
Fixpoint base_name_from (cur : text) (p : text) : text :=
  match p with
  | [] => rev cur
  | c :: p' => if (c =? 47)%N then base_name_from [] p'
               else base_name_from (c :: cur) p'
  end.
Definition base_name (p : text) : text := base_name_from [] p.

(** A CV as a text file holds it: the last line ends with a newline. *)
Definition cv_file : Document :=
  mkDocument (lit "SKILLS: Python" ++ nl)
    [("source"%string, MStr (lit "data/student_cvs/my_cv.txt"))].

Definition cv_file_chunk : Document :=
  mkDocument (lit "SKILLS: Python")
    [("source"%string, MStr (lit "data/student_cvs/my_cv.txt"))].

Definition raw_job : Document :=
  mkDocument job_text
    [("source"%string, MStr (lit "data/market_jobs/backend.txt"))].

Definition jobs_dir : DirPath :=
  mkDirPath (lit "data/market_jobs")
            (Some (mkDirectory (Ok [raw_job]) true (Ok []))).

Definition empty_dir (p : text) : DirPath :=
  mkDirPath p (Some (mkDirectory (Ok []) true (Ok []))).

Definition missing_dir (p : text) : DirPath := mkDirPath p None.

Definition world_no_cvs : IngestWorld Z :=
  mkIngestWorld jobs_dir (missing_dir (lit "data/student_cvs")) (Ok embed_len).

Definition world_jobs_only : IngestWorld Z :=
  mkIngestWorld jobs_dir (empty_dir (lit "data/student_cvs")) (Ok embed_len).



(** [str.upper] and [str.lower] on ASCII letters. *)
Definition ascii_upper (t : text) : text :=
  map (fun c => if ((97 <=? c) && (c <=? 122))%N then (c - 32)%N else c) t.

Definition ascii_lower (t : text) : text :=
  map (fun c => if ((65 <=? c) && (c <=? 90))%N then (c + 32)%N else c) t.

Definition world_both : IngestWorld Z :=
  mkIngestWorld jobs_dir
    (mkDirPath (lit "data/student_cvs")
       (Some (mkDirectory (Ok [cv_file]) true (Ok []))))
    (Ok embed_len).

Definition world_cv_only : IngestWorld Z :=
  mkIngestWorld (empty_dir (lit "data/market_jobs"))
    (mkDirPath (lit "data/student_cvs")
       (Some (mkDirectory (Ok [cv_file]) true (Ok []))))
    (Ok embed_len).

Definition world_embed_down : IngestWorld Z :=
  mkIngestWorld jobs_dir (empty_dir (lit "data/student_cvs")) (Ok embed_down).

End Sample.

(* ================================================================== *)
(** * Properties *)

(** ** Text lemmas *)

Lemma text_eqb_eq (a b : text) : text_eqb a b = true <-> a = b.
Proof.
  revert b; induction a as [|x a IH]; intros [|y b]; simpl;
    try (split; [discriminate | congruence]); try tauto.
  rewrite andb_true_iff, N.eqb_eq, IH. split.
  - intros [-> ->]; reflexivity.
  - intros E; inversion E; auto.
Qed.

Lemma mvalue_eqb_eq (a b : mvalue) : mvalue_eqb a b = true <-> a = b.
Proof.
  destruct a as [s|x], b as [t|y]; simpl;
    try (split; [discriminate | congruence]).
  - rewrite text_eqb_eq. split; congruence.
  - rewrite Z.eqb_eq. split; congruence.
Qed.

Lemma infix_of_refl (t : text) : infix_of t t.
Proof. exists [], []. now rewrite app_nil_r. Qed.

Lemma infix_of_app_l (t s pre : text) : infix_of t s -> infix_of t (pre ++ s).
Proof.
  intros (a & b & ->). exists (pre ++ a), b. now rewrite app_assoc.
Qed.

Lemma infix_of_app_r (t s post : text) : infix_of t s -> infix_of t (s ++ post).
Proof.
  intros (a & b & ->). exists a, (b ++ post). now rewrite <- !app_assoc.
Qed.

Lemma join_cons (sep p : text) (ps : list text) :
  ps <> [] -> join sep (p :: ps) = p ++ sep ++ join sep ps.
Proof. destruct ps; [congruence | reflexivity]. Qed.

(** Every part of a join is a run of the joined text. *)
Lemma infix_of_join (sep p : text) (parts : list text) :
  In p parts -> infix_of p (join sep parts).
Proof.
  induction parts as [|q qs IH]; [contradiction|].
  intros [->|Hin].
  - destruct qs as [|q' qs'].
    + apply infix_of_refl.
    + rewrite join_cons by discriminate.
      apply infix_of_app_r, infix_of_refl.
  - destruct qs as [|q' qs']; [contradiction|].
    rewrite join_cons by discriminate.
    rewrite app_assoc. apply infix_of_app_l, IH, Hin.
Qed.

(** ** Text: prefixes, joins and stripping *)

Lemma len_app (a b : text) : len (a ++ b) = (len a + len b)%Z.
Proof. unfold len. rewrite length_app. lia. Qed.

Lemma len_nonneg (t : text) : (0 <= len t)%Z.
Proof. unfold len. lia. Qed.

Lemma starts_with_app (p t : text) :
  starts_with p t = true -> t = p ++ skipn (length p) t.
Proof.
  revert t; induction p as [|a p IH]; intros t; simpl; [reflexivity|].
  destruct t as [|b t]; [discriminate|].
  rewrite andb_true_iff, N.eqb_eq. intros [-> H]. simpl.
  f_equal. apply IH, H.
Qed.

Lemma join_nil (parts : list text) : join [] parts = concat parts.
Proof.
  induction parts as [|p ps IH]; [reflexivity|].
  destruct ps as [|q qs].
  - simpl. now rewrite app_nil_r.
  - rewrite join_cons by discriminate. rewrite app_nil_l, IH. reflexivity.
Qed.

Lemma length_lstrip (t : text) : (length (lstrip t) <= length t)%nat.
Proof.
  induction t as [|c t IH]; simpl; [lia|].
  destruct (is_space c); simpl; lia.
Qed.

Lemma length_strip (t : text) : (length (strip t) <= length t)%nat.
Proof.
  unfold strip, rstrip. rewrite length_rev.
  etransitivity; [apply length_lstrip|]. rewrite length_rev.
  apply length_lstrip.
Qed.

Lemma len_strip (t : text) : (len (strip t) <= len t)%Z.
Proof. unfold len. pose proof (length_strip t). lia. Qed.

Lemma strip_no_outer_space (t : text) : no_outer_space t -> strip t = t.
Proof.
  intros [H1 H2]. unfold strip, rstrip. rewrite H1, H2. apply rev_involutive.
Qed.

(** ** Splitting at a separator *)

Lemma re_split_from_skip (sep : text) (n : nat) (cur t : text) :
  Splitter.re_split_from sep n cur t
  = Splitter.re_split_from sep 0 cur (skipn n t).
Proof.
  revert n cur; induction t as [|c t IH]; intros n cur.
  - now destruct n.
  - destruct n as [|n]; [reflexivity|]. simpl. apply IH.
Qed.

Lemma re_split_from_cons (sep : text) (n : nat) (cur t : text) :
  exists p0 ps, Splitter.re_split_from sep n cur t = p0 :: ps.
Proof.
  revert n cur; induction t as [|c t IH]; intros n cur; simpl; [eauto|].
  destruct n; [|apply IH]. destruct (starts_with sep (c :: t)); eauto.
Qed.

Lemma re_split_from_rejoin (sep : text) (n : nat) :
  sep <> [] ->
  forall (t cur : text), (length t <= n)%nat ->
    rejoin sep (Splitter.re_split_from sep 0 cur t) = rev cur ++ t.
Proof.
  intros Hsep. induction n as [|n IH]; intros t cur Hn.
  - destruct t; [|simpl in Hn; lia]. simpl. now rewrite !app_nil_r.
  - destruct t as [|c t]; [simpl; now rewrite !app_nil_r|].
    cbn [Splitter.re_split_from].
    destruct (starts_with sep (c :: t)) eqn:E.
    + rewrite re_split_from_skip.
      apply starts_with_app in E.
      destruct sep as [|a sep']; [congruence|].
      simpl in E. injection E as -> E.
      cbn [length Nat.sub]. rewrite Nat.sub_0_r.
      set (r := skipn (length sep') t) in *.
      assert (Hr : (length r <= n)%nat).
      { subst r. rewrite length_skipn. simpl in Hn. lia. }
      pose proof (IH r [] Hr) as R. simpl in R. clearbody r.
      destruct (re_split_from_cons (a :: sep') 0 [] r) as (p0 & ps & S).
      rewrite S in *. unfold rejoin in *. cbn [map concat].
      rewrite <- app_assoc, R, E. reflexivity.
    + rewrite IH by (simpl in Hn; lia). simpl. now rewrite <- app_assoc.
Qed.

Lemma re_split_rejoin (sep t : text) :
  sep <> [] -> rejoin sep (Splitter.re_split sep t) = t.
Proof.
  intros H. unfold Splitter.re_split.
  now rewrite (@re_split_from_rejoin sep (length t) H t []).
Qed.

Lemma concat_filter_truthy (l : list text) :
  concat (filter truthy l) = concat l.
Proof.
  induction l as [|p l IH]; [reflexivity|].
  destruct p; simpl; now rewrite IH.
Qed.

(** The runs a text is split into, separators kept, make up the text. *)
Lemma split_text_with_regex_concat (t sep : text) :
  concat (Splitter.split_text_with_regex t sep) = t.
Proof.
  unfold Splitter.split_text_with_regex. rewrite concat_filter_truthy.
  destruct sep as [|a sep'].
  - induction t as [|c t IH]; simpl; congruence.
  - pose proof (@re_split_rejoin (a :: sep') t ltac:(discriminate)) as R.
    unfold rejoin in R.
    destruct (Splitter.re_split (a :: sep') t); exact R.
Qed.

Lemma split_text_with_regex_truthy (t sep : text) :
  Forall (fun p => truthy p = true) (Splitter.split_text_with_regex t sep).
Proof.
  unfold Splitter.split_text_with_regex. apply Forall_forall.
  intros p Hp. now apply filter_In in Hp.
Qed.

Lemma len_concat_In (p : text) (l : list text) :
  In p l -> (len p <= len (concat l))%Z.
Proof.
  induction l as [|q l IH]; [contradiction|].
  simpl. rewrite len_app. pose proof (len_nonneg q) as Hq.
  pose proof (len_nonneg (concat l)) as Hl.
  intros [->|Hin]; [lia|]. specialize (IH Hin). lia.
Qed.

(** No run is longer than the text it was cut from. *)
Lemma split_text_with_regex_len (t sep p : text) :
  In p (Splitter.split_text_with_regex t sep) -> (len p <= len t)%Z.
Proof.
  intros H. apply len_concat_In in H.
  now rewrite split_text_with_regex_concat in H.
Qed.

(** Split on the empty separator, a text falls into single characters. *)
Lemma split_chars_len (t p : text) :
  In p (Splitter.split_text_with_regex t []) -> len p = 1%Z.
Proof.
  unfold Splitter.split_text_with_regex. intros H.
  apply filter_In in H as [H _]. apply in_map_iff in H as (c & <- & _).
  reflexivity.
Qed.

(** ** Merging runs into chunks *)

Section MergeFacts.

Local Open Scope Z_scope.

Variable chunk_size : Z.
Variable chunk_overlap : Z.
Hypothesis overlap_nonneg : 0 <= chunk_overlap.


Lemma gtb_false (a b : Z) : (a >? b) = false <-> a <= b.
Proof. rewrite Z.gtb_ltb, Z.ltb_ge. tauto. Qed.

Lemma sep_if_0 (b : bool) : Splitter.sep_if b 0 = 0.
Proof. now destruct b. Qed.

Lemma join_docs_fits (cur : list text) :
  len (concat cur) <= chunk_size ->
  Forall (Splitter.fits chunk_size)
         (Splitter.opt_list (Splitter.join_docs cur [])).
Proof.
  intros H. unfold Splitter.join_docs. rewrite join_nil.
  destruct (truthy _); simpl; constructor; [|constructor].
  unfold Splitter.fits. pose proof (len_strip (concat cur)). lia.
Qed.

Lemma concat_snoc (cur : list text) (d : text) :
  concat (cur ++ [d]) = concat cur ++ d.
Proof. rewrite concat_app. simpl. now rewrite app_nil_r. Qed.

Ltac merge_arith :=
  rewrite ?sep_if_0, ?concat_snoc, ?len_app; cbn [concat];
  change (len []) with 0 in *; lia.

(** While the runs seen so far and the runs to come fit together into one
    chunk, nothing is emitted before the end. *)
Lemma merge_loop_fits (splits docs cur : list text) (total : Z) :
  total = len (concat cur) ->
  total + len (concat splits) <= chunk_size ->
  Splitter.merge_loop chunk_size chunk_overlap [] splits docs cur total
  = Ok (docs ++ Splitter.opt_list (Splitter.join_docs (cur ++ splits) [])).
Proof.
  revert docs cur total; induction splits as [|d rest IH];
    intros docs cur total Ht Hfit.
  - simpl. now rewrite app_nil_r.
  - cbn [Splitter.merge_loop]. change (len []) with 0. rewrite !sep_if_0.
    simpl concat in Hfit. rewrite len_app in Hfit.
    pose proof (len_nonneg (concat rest)) as Hr.
    replace (total + len d + 0 >? chunk_size) with false
      by (symmetry; apply gtb_false; lia).
    cbn [bind]. rewrite IH.
    + now rewrite <- app_assoc.
    + merge_arith.
    + merge_arith.
Qed.

(** The inner loop ends, and leaves room for the run to add. *)
Lemma shrink_spec (_len : Z) (cur : list text) (total : Z) :
  total = len (concat cur) ->
  exists cur' total',
    Splitter.shrink chunk_size chunk_overlap 0 _len cur total
    = Ok (cur', total') /\
    total' = len (concat cur') /\
    (total' + _len <= chunk_size \/ total' = 0).
Proof.
  revert total; induction cur as [|x cur IH]; intros total Ht.
  - subst total. cbn [Splitter.shrink concat]. change (len []) with 0.
    replace (0 >? chunk_overlap) with false
      by (symmetry; apply gtb_false; lia).
    replace (0 >? 0) with false by reflexivity.
    rewrite andb_false_r. simpl. exists [], 0. auto.
  - cbn [Splitter.shrink]. rewrite !sep_if_0.
    destruct ((total >? chunk_overlap)
              || (total + _len + 0 >? chunk_size) && (total >? 0)) eqn:C.
    + apply IH. simpl in Ht. rewrite len_app in Ht. lia.
    + exists (x :: cur), total. split; [reflexivity|]. split; [exact Ht|].
      apply orb_false_iff in C as [_ C].
      apply andb_false_iff in C as [C|C];
        apply gtb_false in C.
      * left. lia.
      * right. pose proof (len_nonneg (concat (x :: cur))). lia.
Qed.

(** Merging runs that are each shorter than the chunk size returns, and
    every chunk it returns fits. *)
Lemma merge_loop_bounded (splits docs cur : list text) (total : Z) :
  Forall (fun d => len d < chunk_size) splits ->
  Forall (Splitter.fits chunk_size) docs ->
  total = len (concat cur) ->
  total <= chunk_size ->
  exists res,
    Splitter.merge_loop chunk_size chunk_overlap [] splits docs cur total
    = Ok res /\
    Forall (Splitter.fits chunk_size) res.
Proof.
  revert docs cur total; induction splits as [|d rest IH];
    intros docs cur total Hs Hd Ht Hle.
  - simpl. eexists. split; [reflexivity|].
    apply Forall_app. split; [exact Hd|]. apply join_docs_fits. lia.
  - inversion Hs as [|? ? Hlt Hrest]; subst.
    cbn [Splitter.merge_loop]. change (len []) with 0. rewrite !sep_if_0.
    destruct (len (concat cur) + len d + 0 >? chunk_size) eqn:C.
    + destruct (0 <? length cur)%nat eqn:N.
      * destruct (@shrink_spec (len d) cur _ eq_refl)
          as (cur' & total' & -> & Ht' & Hroom).
        cbn [bind fst snd]. apply IH; auto.
        -- apply Forall_app. split; [exact Hd|]. apply join_docs_fits. lia.
        -- merge_arith.
        -- merge_arith.
      * apply Nat.ltb_ge in N. destruct cur; [|simpl in N; lia].
        cbn [bind]. apply IH; auto.
        -- merge_arith.
        -- merge_arith.
    + apply gtb_false in C. cbn [bind]. apply IH; auto.
      * merge_arith.
      * merge_arith.
Qed.

Lemma merge_splits_bounded (splits : list text) :
  Forall (fun d => len d < chunk_size) splits ->
  0 <= chunk_size ->
  exists res,
    Splitter.merge_splits chunk_size chunk_overlap splits [] = Ok res /\
    Forall (Splitter.fits chunk_size) res.
Proof.
  intros H Hs. apply merge_loop_bounded; auto.
Qed.

Lemma flush_bounded (good final : list text) :
  Forall (fun d => len d < chunk_size) good ->
  Forall (Splitter.fits chunk_size) final ->
  0 <= chunk_size ->
  exists res,
    Splitter.flush chunk_size chunk_overlap good final = Ok res /\
    Forall (Splitter.fits chunk_size) res.
Proof.
  intros Hg Hf Hs. unfold Splitter.flush. destruct good as [|g good].
  - eauto.
  - destruct (merge_splits_bounded Hg Hs) as (res & -> & Hres).
    cbn [bind]. eexists. split; [reflexivity|]. apply Forall_app. auto.
Qed.

(** The loop over the runs returns chunks that fit, when the recursive
    call does; without a recursive call, when every run fits. *)
Lemma process_splits_bounded
      (recur : option (text -> outcome (list text)))
      (splits good final : list text) :
  0 <= chunk_size ->
  match recur with
  | Some f =>
      forall s, exists r, f s = Ok r /\ Forall (Splitter.fits chunk_size) r
  | None => Forall (Splitter.fits chunk_size) splits
  end ->
  Forall (fun d => len d < chunk_size) good ->
  Forall (Splitter.fits chunk_size) final ->
  exists res,
    Splitter.process_splits chunk_size chunk_overlap recur splits good final
    = Ok res /\
              Forall (Splitter.fits chunk_size) res.
Proof.
  intros Hs. revert good final; induction splits as [|s rest IH];
    intros good final Hrec Hg Hf.
  - simpl. now apply flush_bounded.
  - cbn [Splitter.process_splits]. destruct (len s <? chunk_size) eqn:L.
    + apply Z.ltb_lt in L. apply IH; auto.
      * destruct recur; [exact Hrec|]. now inversion Hrec.
      * apply Forall_app. auto.
    + destruct (flush_bounded Hg Hf Hs) as (final1 & -> & Hf1).
      cbn [bind]. destruct recur as [f|].
      * destruct (Hrec s) as (r & -> & Hr). cbn [bind].
        apply IH; auto. apply Forall_app. auto.
      * inversion Hrec; subst. apply IH; auto. apply Forall_app. auto.
Qed.

(** When every run is shorter than the chunk size the loop only collects
    them, and flushes once at the end. *)
Lemma process_splits_all_good
      (recur : option (text -> outcome (list text)))
      (splits good final : list text) :
  Forall (fun d => len d < chunk_size) splits ->
  Splitter.process_splits chunk_size chunk_overlap recur splits good final
  = Splitter.flush chunk_size chunk_overlap (good ++ splits) final.
Proof.
  revert good; induction splits as [|s rest IH]; intros good H.
  - simpl. now rewrite app_nil_r.
  - inversion H as [|? ? Hlt Hrest]; subst. cbn [Splitter.process_splits].
    apply Z.ltb_lt in Hlt. rewrite Hlt, IH by assumption.
    now rewrite <- app_assoc.
Qed.

End MergeFacts.

(** ** The recursive split *)

Section SplitFacts.

Local Open Scope Z_scope.

Variable chunk_size : Z.
Variable chunk_overlap : Z.
Hypothesis overlap_nonneg : 0 <= chunk_overlap.
Hypothesis size_pos : 1 <= chunk_size.

(** [split_text_from] is the loop over the runs cut at the chosen
    separator, with the recursion on the separators after it. *)
Lemma split_text_from_chosen (last_sep : text) (separators : list text)
      (t : text) :
  Splitter.split_text_from chunk_size chunk_overlap last_sep separators t
  = match Splitter.choose_separator separators t with
    | Some (s, new_separators) =>
        Splitter.process_splits chunk_size chunk_overlap
          (Splitter.recur_on chunk_size chunk_overlap last_sep new_separators)
          (Splitter.split_text_with_regex t s) [] []
    | None =>
        Splitter.process_splits chunk_size chunk_overlap None
          (Splitter.split_text_with_regex t last_sep) [] []
    end.
Proof.
  induction separators as [|s rest IH]; [reflexivity|].
  cbn [Splitter.split_text_from Splitter.choose_separator].
  destruct s as [|a s']; [reflexivity|]. cbn [truthy negb].
  destruct (occurs (a :: s') t); [reflexivity | exact IH].
Qed.



(** With the empty separator in the list, splitting always returns, and
    every chunk fits the chunk size. *)
Lemma split_text_from_bounded (last_sep : text) (separators : list text) :
  In [] separators ->
  forall t, exists res,
    Splitter.split_text_from chunk_size chunk_overlap last_sep separators t
    = Ok res /\
    Forall (Splitter.fits chunk_size) res.
Proof.
  assert (Hchars : forall t,
    exists res,
      Splitter.process_splits chunk_size chunk_overlap None
        (Splitter.split_text_with_regex t []) [] [] = Ok res /\
      Forall (Splitter.fits chunk_size) res).
  { intros t. apply process_splits_bounded; auto; [lia|].
    apply Forall_forall. intros p Hp. apply split_chars_len in Hp.
    unfold Splitter.fits. lia. }
  induction separators as [|s rest IH]; [contradiction|].
  intros Hin t. cbn [Splitter.split_text_from].
  destruct s as [|a s']; [apply Hchars|].
  destruct Hin as [Hin|Hin]; [discriminate|].
  destruct (occurs (a :: s') t); [|apply IH, Hin].
  apply process_splits_bounded; auto; [lia|].
  destruct rest as [|r rest']; [contradiction|].
  intros p. apply IH, Hin.
Qed.

(** A text shorter than the chunk size is never cut: whatever separator
    is chosen, its runs are merged back into one chunk, which is then
    stripped. *)
Lemma split_text_from_small (last_sep : text) (separators : list text)
      (t : text) :
  len t < chunk_size ->
  Splitter.split_text_from chunk_size chunk_overlap last_sep separators t
  = Ok (stripped_chunk t).
Proof.
  intros Hlen.
  assert (Hall : forall recur s,
    Splitter.process_splits chunk_size chunk_overlap recur
      (Splitter.split_text_with_regex t s) [] [] = Ok (stripped_chunk t)).
  { intros recur s. rewrite process_splits_all_good.
    - cbn [app]. unfold Splitter.flush.
      pose proof (split_text_with_regex_concat t s) as Hc.
      destruct (Splitter.split_text_with_regex t s) as [|p ps] eqn:E.
      + simpl in Hc. subst t. reflexivity.
      + unfold Splitter.merge_splits.
        rewrite merge_loop_fits; [|reflexivity|].
        * cbn [bind app]. unfold Splitter.join_docs.
          rewrite join_nil, Hc. unfold stripped_chunk.
          now destruct (truthy (strip t)).
        * rewrite Hc. cbn [concat]. change (len []) with 0. lia.
    - apply Forall_forall. intros p Hp.
      apply split_text_with_regex_len in Hp. lia. }
  rewrite split_text_from_chosen.
  destruct (Splitter.choose_separator separators t) as [[s new]|];
    apply Hall.
Qed.

End SplitFacts.

(** ** Retrieval *)

Section RetrievalFacts.

Variable Vec : Type.
Variable nearer : Vec -> Vec -> Vec -> bool.

Lemma In_insert_ranked (q : Vec) (r x : Chroma.record Vec)
      (rs : list (Chroma.record Vec)) :
  In x (Chroma.insert_ranked nearer q r rs) <-> x = r \/ In x rs.
Proof.
  induction rs as [|r' rs IH]; simpl.
  - intuition.
  - destruct (nearer q _ _); simpl; rewrite ?IH; intuition.
Qed.

Lemma In_rank (q : Vec) (x : Chroma.record Vec)
      (rs : list (Chroma.record Vec)) :
  In x (Chroma.rank nearer q rs) <-> In x rs.
Proof.
  induction rs as [|r rs IH]; simpl; [tauto|].
  rewrite In_insert_ranked, IH. intuition.
Qed.

Lemma length_insert_ranked (q : Vec) (r : Chroma.record Vec)
      (rs : list (Chroma.record Vec)) :
  length (Chroma.insert_ranked nearer q r rs) = S (length rs).
Proof.
  induction rs as [|r' rs IH]; simpl; [reflexivity|].
  destruct (nearer q _ _); simpl; congruence.
Qed.

Lemma length_rank (q : Vec) (rs : list (Chroma.record Vec)) :
  length (Chroma.rank nearer q rs) = length rs.
Proof.
  induction rs as [|r rs IH]; simpl; [reflexivity|].
  now rewrite length_insert_ranked, IH.
Qed.

Lemma In_firstn_In {A} (k : nat) (l : list A) (x : A) :
  In x (firstn k l) -> In x l.
Proof.
  revert l; induction k as [|k IH]; intros [|y l]; simpl; try tauto.
  intros [->|H]; auto.
Qed.

Lemma matches_doc_type (key : string) (value : text)
      (r : Chroma.record Vec) :
  Chroma.matches key value r = true ->
  md_get key (doc_metadata (Chroma.rec_document r)) = Some (MStr value).
Proof.
  unfold Chroma.matches.
  destruct (md_get key _) as [v|]; [|discriminate].
  now intros ->%mvalue_eqb_eq.
Qed.

(** Every document a filtered search returns comes from a record of the
    collection that satisfies the filter. *)
Lemma similarity_search_sound (emb : Chroma.Embeddings Vec)
      (c : Chroma.collection Vec) (query : text) (k : nat)
      (key : string) (value : text) (docs : list Document) (d : Document) :
  Chroma.similarity_search nearer emb c query k key value = Ok docs ->
  In d docs ->
  exists r, In r c /\ Chroma.rec_document r = d /\
            md_get key (doc_metadata d) = Some (MStr value).
Proof.
  unfold Chroma.similarity_search. destruct (emb query) as [q|e]; simpl;
    [|discriminate].
  intros [= <-] Hin. apply in_map_iff in Hin as (r & <- & Hr).
  apply In_firstn_In, In_rank, filter_In in Hr as [Hc Hm].
  exists r. auto using matches_doc_type.
Qed.

(** A search never returns more than [k] documents, and returns every
    matching record when there are at most [k] of them. *)
Lemma similarity_search_length (emb : Chroma.Embeddings Vec)
      (c : Chroma.collection Vec) (query : text) (k : nat)
      (key : string) (value : text) (docs : list Document) :
  Chroma.similarity_search nearer emb c query k key value = Ok docs ->
  length docs = Nat.min k (length (filter (Chroma.matches key value) c)).
Proof.
  unfold Chroma.similarity_search. destruct (emb query) as [q|e]; simpl;
    [|discriminate].
  intros [= <-]. now rewrite length_map, length_firstn, length_rank.
Qed.

End RetrievalFacts.

Lemma job_label_is_not_cv_label : config.DOC_TYPE_JOB <> config.DOC_TYPE_CV.
Proof. discriminate. Qed.

(** ** The analyzer *)

Section AnalyzerFacts.

Variable Vec : Type.
Variable nearer : Vec -> Vec -> Vec -> bool.

Implicit Types (self : SkillGapAnalyzer Vec) (c : Chroma.collection Vec).

Lemma get_relevant_jobs_trace self c role k :
  snd (get_relevant_jobs nearer self c role k) = [EmbedQuery role].
Proof. reflexivity. Qed.

(** Retrieval fails exactly when the embedding of the role fails. *)
Lemma get_relevant_jobs_raises self c role k e :
  fst (get_relevant_jobs nearer self c role k) = Raise e <->
  embeddings self role = Raise e.
Proof.
  unfold get_relevant_jobs, get_relevant_jobs_k, Chroma.similarity_search.
  simpl. destruct (embeddings self role); simpl; split; congruence.
Qed.

(** A failure of retrieval leaves [analyze_gap] as the same exception. *)
Lemma analyze_gap_retrieval_failure self c cv_text role e :
  fst (get_relevant_jobs nearer self c role None) = Raise e ->
  fst (analyze_gap nearer self c cv_text role) = Raise e.
Proof.
  unfold analyze_gap.
  destruct (get_relevant_jobs nearer self c role None) as [[docs|e'] tr];
    simpl; congruence.
Qed.

(** Once retrieval has returned, [analyze_gap] returns a string. *)
Lemma analyze_gap_returns self c cv_text role docs :
  fst (get_relevant_jobs nearer self c role None) = Ok docs ->
  exists report, fst (analyze_gap nearer self c cv_text role) = Ok report.
Proof.
  unfold analyze_gap.
  destruct (get_relevant_jobs nearer self c role None) as [[ds|e'] tr];
    simpl; [intros _|discriminate].
  destruct ds as [|d ds]; simpl; [eauto|].
  destruct (chain self role _ cv_text); simpl; eauto.
Qed.

End AnalyzerFacts.

(** C1: whatever the collection holds, whatever the role and [k], every
    chunk [get_relevant_jobs] returns carries the job label as its
    [doc_type] and so is not a chunk tagged as a CV; each one is the chunk
    of a record of the collection. *)
Theorem get_relevant_jobs_only_jobs
        (Vec : Type) (nearer : Vec -> Vec -> Vec -> bool)
        (self : SkillGapAnalyzer Vec) (c : Chroma.collection Vec)
        (role : text) (k : option nat) (docs : list Document) (d : Document) :
  fst (get_relevant_jobs nearer self c role k) = Ok docs ->
  In d docs ->
  md_get "doc_type" (doc_metadata d) = Some (MStr config.DOC_TYPE_JOB) /\
  md_get "doc_type" (doc_metadata d) <> Some (MStr config.DOC_TYPE_CV) /\
  In d (map (@Chroma.rec_document Vec) c).
Proof.
  unfold get_relevant_jobs, get_relevant_jobs_k. simpl. intros Hs Hin.
  destruct (similarity_search_sound _ _ _ _ _ _ _ _ Hs Hin)
    as (r & Hr & <- & Hty).
  split; [exact Hty|]. split.
  - rewrite Hty. intros E. apply job_label_is_not_cv_label. congruence.
  - apply in_map, Hr.
Qed.

Lemma get_relevant_jobs_only_jobs_witness :
  md_get "doc_type" (doc_metadata Sample.job_chunk)
    = Some (MStr config.DOC_TYPE_JOB) /\
  md_get "doc_type" (doc_metadata Sample.job_chunk)
    <> Some (MStr config.DOC_TYPE_CV) /\
  In Sample.job_chunk (map (@Chroma.rec_document Z) Sample.both).
Proof.
  apply (@get_relevant_jobs_only_jobs Z Sample.nearer Sample.analyzer
           Sample.both Sample.role (Some 5%nat) [Sample.job_chunk]).
  - reflexivity.
  - simpl. left. reflexivity.
Defined.

(** C2: when retrieval finds no job chunk, [analyze_gap] returns the fixed
    message and the only call that left the process is the embedding of the
    role: the chain is not invoked. *)
Theorem analyze_gap_no_jobs
        (Vec : Type) (nearer : Vec -> Vec -> Vec -> bool)
        (self : SkillGapAnalyzer Vec) (c : Chroma.collection Vec)
        (cv_text role : text) :
  fst (get_relevant_jobs nearer self c role None) = Ok [] ->
  analyze_gap nearer self c cv_text role
    = (Ok NO_JOBS_MESSAGE, [EmbedQuery role]) /\
  forall r j t,
    ~ In (ChainInvoke r j t) (snd (analyze_gap nearer self c cv_text role)).
Proof.
  intros H.
  assert (E : analyze_gap nearer self c cv_text role
              = (Ok NO_JOBS_MESSAGE, [EmbedQuery role])).
  { unfold analyze_gap.
    destruct (get_relevant_jobs nearer self c role None) as [o tr] eqn:G.
    pose proof (get_relevant_jobs_trace nearer self c role None) as T.
    rewrite G in T. simpl in H, T. subst o tr. reflexivity. }
  split; [exact E|].
  intros r j t. rewrite E. simpl. intros [X|[]]. discriminate X.
Qed.

Lemma analyze_gap_no_jobs_witness :
  analyze_gap Sample.nearer Sample.analyzer [Sample.cv_record]
              Sample.cv_text Sample.role
    = (Ok NO_JOBS_MESSAGE, [EmbedQuery Sample.role]) /\
  forall r j t,
    ~ In (ChainInvoke r j t)
         (snd (analyze_gap Sample.nearer Sample.analyzer [Sample.cv_record]
                           Sample.cv_text Sample.role)).
Proof.
  apply (@analyze_gap_no_jobs Z Sample.nearer Sample.analyzer
           [Sample.cv_record] Sample.cv_text Sample.role).
  reflexivity.
Defined.

(** C3, as the claim states it, fails: with the embedding service down the
    retrieval inside [analyze_gap] raises before the [try] block is
    entered, and the caller receives the exception, not a string. *)
Lemma analyze_gap_embedding_failure_propagates :
  fst (analyze_gap Sample.nearer Sample.analyzer_embed_down Sample.both
                   Sample.cv_text Sample.role)
    = Raise (Exn ExternalError (lit "embedding model unavailable")) /\
  ~ exists report,
      fst (analyze_gap Sample.nearer Sample.analyzer_embed_down Sample.both
                       Sample.cv_text Sample.role) = Ok report.
Proof.
  split; [reflexivity|]. intros [report H]. discriminate H.
Qed.

(** C3, amended: when retrieval has returned job chunks and the
    chat-completion call fails, [analyze_gap] catches the failure and
    returns the error string built from [str(e)]. *)
Theorem analyze_gap_completion_failure_caught
        (Vec : Type) (nearer : Vec -> Vec -> Vec -> bool)
        (self : SkillGapAnalyzer Vec) (c : Chroma.collection Vec)
        (cv_text role : text) (docs : list Document) (e : exn) :
  fst (get_relevant_jobs nearer self c role None) = Ok docs ->
  docs <> [] ->
  chain self role (job_context_of docs) cv_text = Raise e ->
  fst (analyze_gap nearer self c cv_text role)
    = Ok (analysis_error_message e).
Proof.
  unfold analyze_gap.
  destruct (get_relevant_jobs nearer self c role None) as [o tr].
  simpl. intros -> Hne Hch.
  destruct docs as [|d ds]; [congruence|].
  simpl in *. rewrite Hch. reflexivity.
Qed.

Lemma analyze_gap_completion_failure_caught_witness :
  fst (analyze_gap Sample.nearer Sample.analyzer_llm_down Sample.both
                   Sample.cv_text Sample.role)
    = Ok (analysis_error_message Sample.rate_limited).
Proof.
  apply (@analyze_gap_completion_failure_caught Z Sample.nearer
           Sample.analyzer_llm_down Sample.both Sample.cv_text Sample.role
           [Sample.job_chunk]).
  - reflexivity.
  - discriminate.
  - reflexivity.
Defined.

(** C7: when retrieval returns a non-empty list of chunks, the chain is
    invoked once, with a [job_context] that is the chunks' blocks joined by
    the rule line; every block is the source line of the chunk followed by
    the chunk's text, and occurs in the context character for character. *)
Theorem job_context_contains_chunks
        (Vec : Type) (nearer : Vec -> Vec -> Vec -> bool)
        (self : SkillGapAnalyzer Vec) (c : Chroma.collection Vec)
        (cv_text role : text) (docs : list Document) :
  fst (get_relevant_jobs nearer self c role None) = Ok docs ->
  docs <> [] ->
  snd (analyze_gap nearer self c cv_text role)
    = [EmbedQuery role; ChainInvoke role (job_context_of docs) cv_text] /\
  job_context_of docs = join JOB_SEPARATOR (map format_job docs) /\
  forall d, In d docs ->
    infix_of (SOURCE_PREFIX ++ source_label d ++ nl ++ nl ++ page_content d)
             (job_context_of docs) /\
    infix_of (page_content d) (job_context_of docs) /\
    (forall name, md_get "source_name" (doc_metadata d) = Some (MStr name) ->
                  source_label d = name).
Proof.
  intros Hget Hne. split; [|split; [reflexivity|]].
  - unfold analyze_gap.
    destruct (get_relevant_jobs nearer self c role None) as [o tr] eqn:G.
    pose proof (get_relevant_jobs_trace nearer self c role None) as T.
    rewrite G in T. simpl in Hget, T. subst o tr.
    destruct docs as [|d ds]; [congruence|].
    destruct (chain self role _ cv_text); reflexivity.
  - intros d Hd.
    assert (B : infix_of (format_job d) (job_context_of docs)).
    { apply infix_of_join, in_map, Hd. }
    split; [exact B|]. split.
    + destruct B as (pre & post & ->). unfold format_job.
      exists (pre ++ SOURCE_PREFIX ++ source_label d ++ nl ++ nl), post.
      now rewrite <- !app_assoc.
    + intros name Hn. unfold source_label. now rewrite Hn.
Qed.

Lemma job_context_contains_chunks_witness :
  snd (analyze_gap Sample.nearer Sample.analyzer Sample.both
                   Sample.cv_text Sample.role)
    = [EmbedQuery Sample.role;
       ChainInvoke Sample.role (job_context_of [Sample.job_chunk])
                   Sample.cv_text] /\
  job_context_of [Sample.job_chunk]
    = join JOB_SEPARATOR (map format_job [Sample.job_chunk]) /\
  forall d, In d [Sample.job_chunk] ->
    infix_of (SOURCE_PREFIX ++ source_label d ++ nl ++ nl ++ page_content d)
             (job_context_of [Sample.job_chunk]) /\
    infix_of (page_content d) (job_context_of [Sample.job_chunk]) /\
    (forall name, md_get "source_name" (doc_metadata d) = Some (MStr name) ->
                  source_label d = name).
Proof.
  apply (@job_context_contains_chunks Z Sample.nearer Sample.analyzer
           Sample.both Sample.cv_text Sample.role [Sample.job_chunk]).
  - reflexivity.
  - discriminate.
Defined.

(** ** Construction of the analyzer *)

Section InitFacts.

Variable Vec : Type.
Variable CHROMA_PERSIST_DIR : text.

Implicit Types (env : Env Vec) (st : Chroma.store Vec).

(** Without a usable Streamlit secret the key is the process
    environment's. *)
Lemma groq_api_key_from_getenv env :
  (forall s, st_secrets_get env = Ok (Some s) -> s = []) ->
  groq_api_key env = getenv env.
Proof.
  unfold groq_api_key. intros H.
  destruct (st_secrets_get env) as [[s|]|e]; simpl; try reflexivity.
  now rewrite (H s eq_refl).
Qed.

Lemma key_rejected_iff (key : option text) :
  key_rejected key = true <->
  key = None \/ key = Some [] \/ key = Some PLACEHOLDER_KEY.
Proof.
  destruct key as [s|]; simpl.
  - rewrite orb_true_iff, text_eqb_eq. split.
    + intros [H|H].
      * destruct s; [auto | discriminate H].
      * right. right. now rewrite H.
    + intros [H|[H|H]]; [discriminate H | |].
      * injection H as ->. now left.
      * injection H as H. now right.
  - intuition.
Qed.

Lemma missing_store_error_instructs :
  exn_class (missing_store_error CHROMA_PERSIST_DIR) = FileNotFoundError /\
  infix_of REBUILD_INSTRUCTION
           (exn_str (missing_store_error CHROMA_PERSIST_DIR)).
Proof.
  split; [reflexivity|].
  exists (lit "Vector store not found at " ++ CHROMA_PERSIST_DIR ++ nl), [].
  unfold missing_store_error. cbn [exn_str].
  rewrite app_nil_r. now rewrite <- !app_assoc.
Qed.

(** No analyzer is ever constructed while the persist directory is
    missing, so no search runs against a store that was never written. *)
Lemma init_needs_store env :
  exists e, init CHROMA_PERSIST_DIR env None = Raise e.
Proof.
  unfold init. destruct (key_rejected _); [eauto|].
  destruct (hf_embeddings_init env); simpl; eauto.
Qed.

End InitFacts.

(** C5, as the claim states it, fails: with the persist directory missing
    and no API key configured, construction raises the [ValueError] of the
    key check, not the not-found error. *)
Lemma init_missing_store_without_key :
  init Sample.persist_dir Sample.env_no_key None = Raise missing_key_error /\
  exn_class missing_key_error <> FileNotFoundError.
Proof. split; [reflexivity | discriminate]. Qed.

(** C5, amended: with an accepted API key and the embedding model loaded,
    constructing the analyzer while the persist directory does not exist
    raises [FileNotFoundError], and its message carries the instruction to
    run the ingestion. *)
Theorem init_missing_store
        (Vec : Type) (CHROMA_PERSIST_DIR : text) (env : Env Vec)
        (emb : Chroma.Embeddings Vec) :
  key_rejected (groq_api_key env) = false ->
  hf_embeddings_init env = Ok emb ->
  init CHROMA_PERSIST_DIR env None
    = Raise (missing_store_error CHROMA_PERSIST_DIR) /\
  exn_class (missing_store_error CHROMA_PERSIST_DIR) = FileNotFoundError /\
  infix_of REBUILD_INSTRUCTION
           (exn_str (missing_store_error CHROMA_PERSIST_DIR)).
Proof.
  intros Hk He. split.
  - unfold init. rewrite Hk, He. reflexivity.
  - apply missing_store_error_instructs.
Qed.

Lemma init_missing_store_witness :
  init Sample.persist_dir Sample.env_with_key None
    = Raise (missing_store_error Sample.persist_dir) /\
  exn_class (missing_store_error Sample.persist_dir) = FileNotFoundError /\
  infix_of REBUILD_INSTRUCTION
           (exn_str (missing_store_error Sample.persist_dir)).
Proof.
  apply (@init_missing_store Z Sample.persist_dir Sample.env_with_key
           Sample.embed_len).
  - reflexivity.
  - reflexivity.
Defined.

(** Construction is refused for a key that resolves to nothing, to the
    empty string or to the placeholder, whatever the state of the store. *)
Lemma init_rejects_unusable_key
      (Vec : Type) (CHROMA_PERSIST_DIR : text) (env : Env Vec)
      (st : Chroma.store Vec) :
  groq_api_key env = None \/
  groq_api_key env = Some (lit "") \/
  groq_api_key env = Some (lit "your_api_key_here") ->
  init CHROMA_PERSIST_DIR env st = Raise missing_key_error.
Proof.
  intros H. apply key_rejected_iff in H.
  unfold init. rewrite H. reflexivity.
Qed.

(** C9, as the claim states it, fails: with the environment value unset
    and a key in the Streamlit secrets, construction goes through: the
    secret is looked at first. *)
Lemma init_accepts_secret_without_env_key :
  getenv Sample.env_secret_only = None /\
  init Sample.persist_dir Sample.env_secret_only (Some Sample.both)
    = Ok Sample.analyzer.
Proof. split; reflexivity. Qed.

(** C9, amended: when the Streamlit secrets give no non-empty key and the
    environment value is unset, empty or the placeholder, construction
    raises the [ValueError] of the key check, whatever the state of the
    store: the check comes before the store is looked at, so it is the
    error reported also when the persist directory is missing. *)
Theorem init_rejects_missing_env_key
        (Vec : Type) (CHROMA_PERSIST_DIR : text) (env : Env Vec)
        (st : Chroma.store Vec) :
  (forall s, st_secrets_get env = Ok (Some s) -> s = []) ->
  getenv env = None \/
  getenv env = Some (lit "") \/
  getenv env = Some (lit "your_api_key_here") ->
  init CHROMA_PERSIST_DIR env st = Raise missing_key_error /\
  init CHROMA_PERSIST_DIR env None = Raise missing_key_error /\
  exn_class missing_key_error = ValueError.
Proof.
  intros Hs Hg. rewrite <- (groq_api_key_from_getenv env Hs) in Hg.
  split; [|split; [|reflexivity]]; now apply init_rejects_unusable_key.
Qed.

Lemma init_rejects_missing_env_key_witness :
  init Sample.persist_dir Sample.env_placeholder (Some Sample.both)
    = Raise missing_key_error /\
  init Sample.persist_dir Sample.env_placeholder None
    = Raise missing_key_error /\
  exn_class missing_key_error = ValueError.
Proof.
  apply (@init_rejects_missing_env_key Z Sample.persist_dir
           Sample.env_placeholder (Some Sample.both)).
  - intros s H. injection H as <-. reflexivity.
  - right. right. reflexivity.
Defined.

(** ** Ingestion *)

Section IngestFacts.

Variable Vec : Type.
Variable path_name : text -> text.

Lemma embed_documents_chunks (emb : Chroma.Embeddings Vec)
      (chunks : list Document) (new : list (Chroma.record Vec)) :
  Chroma.embed_documents emb chunks = Ok new ->
  map (@Chroma.rec_document Vec) new = chunks.
Proof.
  revert new; induction chunks as [|d ds IH]; simpl; intros new.
  - now intros [= <-].
  - destruct (emb (page_content d)) as [v|e]; simpl; [|discriminate].
    destruct (Chroma.embed_documents emb ds) as [more|e]; simpl;
      [|discriminate].
    intros [= <-]. simpl. now rewrite (IH more eq_refl).
Qed.

(** [load_documents] raises only for a missing directory. *)
Lemma load_documents_raises (directory : DirPath) (doc_type : text)
      (e : exn) :
  load_documents path_name directory doc_type = Raise e ->
  dir_entry directory = None /\ exn_class e = FileNotFoundError.
Proof.
  unfold load_documents. destruct (dir_entry directory); [discriminate|].
  intros [= <-]. auto.
Qed.

Lemma load_documents_missing (directory : DirPath) (doc_type : text) :
  dir_entry directory = None ->
  exists e, load_documents path_name directory doc_type = Raise e /\
            is_file_not_found e = true.
Proof.
  unfold load_documents. intros ->. eauto.
Qed.

End IngestFacts.

(** ** Labels of ingested records *)

Lemma md_get_set_same (k : string) (v : mvalue) (m : metadata) :
  md_get k (md_set k v m) = Some v.
Proof.
  induction m as [|[k' v'] m IH]; simpl.
  - now rewrite String.eqb_refl.
  - destruct (String.eqb k k') eqn:E; simpl.
    + now rewrite String.eqb_refl.
    + now rewrite E.
Qed.

Lemma md_get_set_other (k k' : string) (v : mvalue) (m : metadata) :
  k <> k' -> md_get k (md_set k' v m) = md_get k m.
Proof.
  intros Hne. induction m as [|[k2 v2] m IH]; simpl.
  - apply String.eqb_neq in Hne. now rewrite Hne.
  - destruct (String.eqb k' k2) eqn:E; simpl.
    + apply String.eqb_eq in E. subst k2.
      apply String.eqb_neq in Hne. now rewrite Hne.
    + destruct (String.eqb k k2); [reflexivity | exact IH].
Qed.

Lemma set_tags_doc_type (ty name : text) (d : Document) :
  has_doc_type ty (set_tags ty name d).
Proof.
  unfold has_doc_type, set_tags. simpl.
  rewrite md_get_set_other by discriminate. apply md_get_set_same.
Qed.

Section LabelFacts.

Variable Vec : Type.
Variable path_name : text -> text.

Lemma tag_txt_docs_tagged (ty : text) (txt_docs docs : list Document) :
  tag_txt_docs path_name ty txt_docs = Ok docs ->
  Forall (has_doc_type ty) docs.
Proof.
  revert docs; induction txt_docs as [|d ds IH]; simpl; intros docs.
  - intros [= <-]. constructor.
  - destruct (md_get "source" (doc_metadata d)) as [[src|z]|];
      try discriminate.
    destruct (tag_txt_docs path_name ty ds) as [more|e]; simpl;
      [|discriminate].
    intros [= <-]. constructor; [apply set_tags_doc_type | now apply IH].
Qed.

Lemma load_pdf_files_tagged (ty : text)
      (files : list (text * outcome (list Document))) :
  Forall (has_doc_type ty) (load_pdf_files ty files).
Proof.
  induction files as [|[name [pdf_docs|e]] rest IH]; simpl; auto.
  apply Forall_app. split; [|exact IH].
  apply Forall_forall. intros d Hd.
  apply in_map_iff in Hd as (x & <- & _). apply set_tags_doc_type.
Qed.

(** Every document [load_documents] returns carries the label it was
    loaded under. *)
Lemma load_documents_tagged (directory : DirPath) (ty : text)
      (docs : list Document) :
  load_documents path_name directory ty = Ok docs ->
  Forall (has_doc_type ty) docs.
Proof.
  unfold load_documents. destruct (dir_entry directory) as [d|];
    [|discriminate].
  intros [= <-]. apply Forall_app. split.
  - unfold load_txt.
    destruct (txt_loader d) as [txt_docs|e]; simpl; [|constructor].
    destruct (tag_txt_docs path_name ty txt_docs) eqn:T; [|constructor].
    eapply tag_txt_docs_tagged, T.
  - unfold load_pdf. destruct (pypdf_available d); [|constructor].
    destruct (pdf_files d); [apply load_pdf_files_tagged | constructor].
Qed.

(** Chunking copies the metadata: a property of the metadata that holds
    of every document holds of every chunk. *)
Lemma split_documents_metadata (P : metadata -> Prop)
      (chunk_size chunk_overlap : Z) (seps : list text)
      (documents chunks : list Document) :
  Splitter.split_documents chunk_size chunk_overlap seps documents
  = Ok chunks ->
  Forall (fun d => P (doc_metadata d)) documents ->
  Forall (fun c => P (doc_metadata c)) chunks.
Proof.
  revert chunks; induction documents as [|doc rest IH]; simpl; intros chunks.
  - intros [= <-] _. constructor.
  - destruct (Splitter.split_text _ _ _ _) as [cs|e]; simpl; [|discriminate].
    destruct (Splitter.split_documents _ _ _ rest) as [more|e]; simpl;
      [|discriminate].
    intros [= <-] H. inversion H as [|? ? Hd Hrest]; subst.
    apply Forall_app. split; [|now apply IH].
    apply Forall_forall. intros c Hc.
    apply in_map_iff in Hc as (x & <- & _). exact Hd.
Qed.

(** A successful ingestion leaves the earlier records in place and adds
    records that all carry one of the two labels. *)
Lemma run_ingestion_labels (w : IngestWorld Vec) (st st' : Chroma.store Vec)
      (c : Chroma.collection Vec) :
  run_ingestion path_name w st = (Ok (Some c), st') ->
  st' = Some c /\
  exists new, c = mkdir st ++ new /\
    Forall (fun r => known_doc_type (Chroma.rec_document r)) new.
Proof.
  unfold run_ingestion.
  destruct (load_documents path_name (DATA_JOBS_DIR w) _) as [jobs|e] eqn:J;
    [|destruct (is_file_not_found e); discriminate].
  destruct (load_documents path_name (DATA_CVS_DIR w) _) as [cvs|e] eqn:C;
    [|destruct (is_file_not_found e); discriminate].
  destruct (jobs ++ cvs) as [|d0 ds] eqn:A; [discriminate|]. rewrite <- A.
  destruct (chunk_documents (jobs ++ cvs)) as [chunks|e] eqn:K;
    [|discriminate].
  destruct (create_embeddings w) as [emb|e]; [|discriminate].
  unfold create_vector_store, Chroma.from_documents.
  destruct (Chroma.embed_documents emb chunks) as [new|e] eqn:E; simpl;
    [|discriminate].
  intros [= <- <-]. split; [reflexivity|]. exists new. split; [reflexivity|].
  assert (Hdocs : Forall known_doc_type (jobs ++ cvs)).
  { apply Forall_app. split.
    - eapply Forall_impl; [|eapply load_documents_tagged, J].
      intros d Hd. now left.
    - eapply Forall_impl; [|eapply load_documents_tagged, C].
      intros d Hd. now right. }
  pose proof (split_documents_metadata
                (fun m => md_get "doc_type" m = Some (MStr config.DOC_TYPE_JOB)
                       \/ md_get "doc_type" m = Some (MStr config.DOC_TYPE_CV))
                _ _ _ K Hdocs) as Hchunks.
  apply embed_documents_chunks in E. subst chunks.
  rewrite Forall_map in Hchunks. exact Hchunks.
Qed.

End LabelFacts.

(** Ingesting one job posting into a fresh store writes one record. *)
Lemma run_ingestion_sample :
  run_ingestion Sample.base_name Sample.world_jobs_only None
  = (Ok (Some [Sample.job_record]), Some [Sample.job_record]).
Proof. reflexivity. Qed.




(** C10: when the job directory is missing, or the CV directory is missing
    (whatever the job directory held), or both directories load and hold no
    document, [run_ingestion] returns [None] rather than raising, and the
    store is left as it was. *)
Theorem run_ingestion_aborts
        (Vec : Type) (path_name : text -> text) (w : IngestWorld Vec)
        (st : Chroma.store Vec) :
  dir_entry (DATA_JOBS_DIR w) = None \/
  dir_entry (DATA_CVS_DIR w) = None \/
  (load_documents path_name (DATA_JOBS_DIR w) config.DOC_TYPE_JOB = Ok [] /\
   load_documents path_name (DATA_CVS_DIR w) config.DOC_TYPE_CV = Ok []) ->
  run_ingestion path_name w st = (Ok None, st).
Proof.
  unfold run_ingestion. intros [Hj|[Hc|[Hj Hc]]].
  - destruct (load_documents_missing path_name (DATA_JOBS_DIR w)
                config.DOC_TYPE_JOB Hj) as (e & -> & ->).
    reflexivity.
  - destruct (load_documents_missing path_name (DATA_CVS_DIR w)
                config.DOC_TYPE_CV Hc) as (e & -> & ->).
    destruct (load_documents path_name (DATA_JOBS_DIR w) _) as [jobs|e'] eqn:L.
    + reflexivity.
    + apply load_documents_raises in L as [_ L].
      unfold is_file_not_found. now rewrite L.
  - rewrite Hj, Hc. reflexivity.
Qed.

Lemma run_ingestion_aborts_witness :
  run_ingestion Sample.base_name Sample.world_no_cvs (Some Sample.both)
    = (Ok None, Some Sample.both).
Proof.
  apply (@run_ingestion_aborts Z Sample.base_name Sample.world_no_cvs
           (Some Sample.both)).
  right. left. reflexivity.
Defined.

(** ** The chunker *)

Lemma separators_end_empty : In [] separators.
Proof. unfold separators. simpl. auto 10. Qed.

Lemma chunk_text_small (t : text) :
  (len t < config.CHUNK_SIZE)%Z -> chunk_text t = Ok (stripped_chunk t).
Proof. intros H. apply split_text_from_small, H. Qed.

(** Chunking a text always returns, and every chunk fits. *)
Lemma chunk_text_bounded (t : text) :
  exists chunks,
    chunk_text t = Ok chunks /\
    Forall (Splitter.fits config.CHUNK_SIZE) chunks.
Proof.
  apply split_text_from_bounded.
  - unfold config.CHUNK_OVERLAP. lia.
  - unfold config.CHUNK_SIZE. lia.
  - apply separators_end_empty.
Qed.


(** C8, as the claim states it, fails: a short document that ends with a
    newline comes back as one chunk without the newline. *)
Lemma chunk_documents_strips_newline :
  chunk_documents [Sample.cv_file] = Ok [Sample.cv_file_chunk] /\
  chunk_documents [Sample.cv_file] <> Ok [Sample.cv_file].
Proof. split; [reflexivity | discriminate]. Qed.

(** C8, amended: a document whose content is shorter than the chunk size
    is not cut: chunking it yields its content with the white space at
    both ends removed, as one chunk with the document's metadata, and no
    chunk when nothing else was there.  If the content is not empty and
    neither starts nor ends with white space, that is exactly the document
    unchanged. *)
Theorem chunk_documents_small (doc : Document) :
  (len (page_content doc) < config.CHUNK_SIZE)%Z ->
  chunk_documents [doc]
    = Ok (map (fun c => mkDocument c (doc_metadata doc))
              (stripped_chunk (page_content doc))) /\
  (page_content doc <> [] -> no_outer_space (page_content doc) ->
   chunk_documents [doc] = Ok [doc]).
Proof.
  intros Hlen.
  assert (E : chunk_documents [doc]
              = Ok (map (fun c => mkDocument c (doc_metadata doc))
                        (stripped_chunk (page_content doc)))).
  { unfold chunk_documents. cbn [Splitter.split_documents].
    pose proof (@chunk_text_small (page_content doc) Hlen) as H.
    unfold chunk_text in H.
    rewrite H. cbn [bind]. now rewrite app_nil_r. }
  split; [exact E|].
  intros Hne Hsp. rewrite E. unfold stripped_chunk.
  rewrite (@strip_no_outer_space (page_content doc) Hsp).
  destruct doc as [t md]. simpl in *. destruct t; [congruence|reflexivity].
Qed.

Lemma chunk_documents_small_witness :
  chunk_documents [Sample.job_chunk]
    = Ok (map (fun c => mkDocument c (doc_metadata Sample.job_chunk))
              (stripped_chunk (page_content Sample.job_chunk))) /\
  (page_content Sample.job_chunk <> [] ->
   no_outer_space (page_content Sample.job_chunk) ->
   chunk_documents [Sample.job_chunk] = Ok [Sample.job_chunk]).
Proof.
  apply (@chunk_documents_small Sample.job_chunk).
  reflexivity.
Defined.

(** ** The shape of a chunk *)

Lemma infix_of_trans (a b c : text) :
  infix_of a b -> infix_of b c -> infix_of a c.
Proof.
  intros (p & q & ->) (p' & q' & ->).
  exists (p' ++ p), (q ++ q'). now rewrite <- !app_assoc.
Qed.

Lemma lstrip_split (t : text) : exists s, t = s ++ lstrip t.
Proof.
  induction t as [|c t (s & IH)]; [now exists []|].
  simpl. destruct (is_space c).
  - exists (c :: s). simpl. now f_equal.
  - now exists [].
Qed.

Lemma lstrip_head (t : text) (c : char) (r : text) :
  lstrip t = c :: r -> is_space c = false.
Proof.
  induction t as [|x t IH]; simpl; [discriminate|].
  destruct (is_space x) eqn:E; [exact IH|].
  intros [= -> _]. exact E.
Qed.

Lemma lstrip_fixed (c : char) (r : text) :
  is_space c = false -> lstrip (c :: r) = c :: r.
Proof. intros H. simpl. now rewrite H. Qed.

Lemma lstrip_idem (t : text) : lstrip (lstrip t) = lstrip t.
Proof.
  destruct (lstrip t) as [|c r] eqn:E; [reflexivity|].
  apply lstrip_fixed. eapply lstrip_head, E.
Qed.

Lemma strip_infix (t : text) : infix_of (strip t) t.
Proof.
  unfold strip, rstrip.
  destruct (lstrip_split t) as (s1 & H1).
  destruct (lstrip_split (rev (lstrip t))) as (s2 & H2).
  exists s1, (rev s2). rewrite H1 at 1. f_equal.
  rewrite <- (rev_involutive (lstrip t)), H2 at 1.
  now rewrite rev_app_distr.
Qed.

(** What [strip] returns has no white space left at either end. *)
Lemma strip_no_outer_space_strip (t : text) : no_outer_space (strip t).
Proof.
  unfold no_outer_space, strip, rstrip. rewrite rev_involutive.
  split; [|apply lstrip_idem].
  set (u := lstrip t).
  destruct (lstrip_split (rev u)) as (s & Hs).
  set (v := lstrip (rev u)) in *.
  assert (Hu : u = rev v ++ rev s).
  { rewrite <- (rev_involutive u), Hs. apply rev_app_distr. }
  destruct (rev v) as [|c r] eqn:Ev; [reflexivity|].
  apply lstrip_fixed. subst u. eapply lstrip_head. exact Hu.
Qed.

Lemma truthy_not_nil (t : text) : truthy t = true <-> t <> [].
Proof. destruct t; simpl; split; congruence. Qed.

Lemma chunk_of_infix (t t' ch : text) :
  chunk_of t ch -> infix_of t t' -> chunk_of t' ch.
Proof.
  intros (H1 & H2 & H3) H. split; [exact H1|]. split; [exact H2|].
  eapply infix_of_trans; eauto.
Qed.

Lemma join_docs_chunk_of (cur : list text) (t : text) :
  infix_of (concat cur) t ->
  Forall (chunk_of t) (Splitter.opt_list (Splitter.join_docs cur [])).
Proof.
  intros H. unfold Splitter.join_docs. rewrite join_nil.
  destruct (truthy (strip (concat cur))) eqn:E; simpl; constructor;
    [|constructor].
  split; [|split].
  - now apply truthy_not_nil.
  - apply strip_no_outer_space_strip.
  - eapply infix_of_trans; [apply strip_infix | exact H].
Qed.

Lemma concat_app_infix_r (a b : list text) :
  infix_of (concat b) (concat (a ++ b)).
Proof.
  rewrite concat_app. exists (concat a), []. now rewrite app_nil_r.
Qed.

Lemma concat_app_infix_l (a b : list text) :
  infix_of (concat a) (concat (a ++ b)).
Proof.
  rewrite concat_app. exists [], (concat b). reflexivity.
Qed.

Section ChunkShape.

Local Open Scope Z_scope.

Variable chunk_size : Z.
Variable chunk_overlap : Z.
Hypothesis size_big : 1 < chunk_size.

(** The inner loop only drops runs from the front. *)
Lemma shrink_suffix (sl l : Z) (cur cur' : list text) (total total' : Z) :
  Splitter.shrink chunk_size chunk_overlap sl l cur total
  = Ok (cur', total') ->
  exists dropped, cur = dropped ++ cur'.
Proof.
  revert total; induction cur as [|x cur IH]; intros total;
    cbn [Splitter.shrink].
  - destruct (_ || _); [discriminate|]. intros [= <- _]. now exists [].
  - destruct (_ || _).
    + intros H. destruct (IH _ H) as (dropped & ->).
      now exists (x :: dropped).
    + intros [= <- _]. now exists [].
Qed.

(** Every chunk merged out of runs of a text is a chunk of that text. *)
Lemma merge_loop_chunk_of (t : text) (splits docs cur : list text)
      (total : Z) (res : list text) :
  infix_of (concat (cur ++ splits)) t ->
  Forall (chunk_of t) docs ->
  Splitter.merge_loop chunk_size chunk_overlap [] splits docs cur total
  = Ok res ->
  Forall (chunk_of t) res.
Proof.
  revert docs cur total; induction splits as [|d rest IH];
    intros docs cur total Hin Hdocs.
  - cbn [Splitter.merge_loop]. intros [= <-]. rewrite app_nil_r in Hin.
    apply Forall_app. split; [exact Hdocs|]. now apply join_docs_chunk_of.
  - cbn [Splitter.merge_loop].
    assert (Hcur : infix_of (concat cur) t).
    { eapply infix_of_trans; [apply concat_app_infix_l | exact Hin]. }
    assert (Hstep : forall docs1 cur1 total1 dropped,
               cur = dropped ++ cur1 -> Forall (chunk_of t) docs1 ->
               Splitter.merge_loop chunk_size chunk_overlap [] rest docs1
                 (cur1 ++ [d]) total1 = Ok res ->
               Forall (chunk_of t) res).
    { intros docs1 cur1 total1 dropped -> Hd1. apply IH; [|exact Hd1].
      rewrite <- app_assoc. simpl.
      eapply infix_of_trans; [|exact Hin].
      rewrite <- app_assoc. apply concat_app_infix_r. }
    destruct (_ >? chunk_size).
    + destruct (0 <? length cur)%nat.
      * destruct (Splitter.shrink _ _ _ _ cur total) as [[cur' total']|e]
          eqn:S; cbn [bind fst snd]; [|discriminate].
        destruct (shrink_suffix _ _ _ _ S) as (dropped & Hd).
        apply (Hstep _ _ _ dropped Hd).
        apply Forall_app. split; [exact Hdocs|].
        now apply join_docs_chunk_of.
      * cbn [bind]. now apply (Hstep _ _ _ []).
    + cbn [bind]. now apply (Hstep _ _ _ []).
Qed.

Lemma flush_chunk_of (t : text) (good final res : list text) :
  infix_of (concat good) t ->
  Forall (chunk_of t) final ->
  Splitter.flush chunk_size chunk_overlap good final = Ok res ->
  Forall (chunk_of t) res.
Proof.
  intros Hg Hf. unfold Splitter.flush. destruct good as [|g good].
  - now intros [= <-].
  - unfold Splitter.merge_splits.
    destruct (Splitter.merge_loop _ _ _ _ _ _ _) as [merged|e] eqn:M;
      cbn [bind]; [|discriminate].
    intros [= <-]. apply Forall_app. split; [exact Hf|].
    eapply merge_loop_chunk_of; [| |exact M]; [|constructor].
    simpl app. exact Hg.
Qed.

Lemma process_splits_chunk_of
      (recur : option (text -> outcome (list text)))
      (t : text) (splits good final res : list text) :
  match recur with
  | Some f => forall s r, f s = Ok r -> Forall (chunk_of s) r
  | None => Forall (fun s => len s < chunk_size) splits
  end ->
  infix_of (concat (good ++ splits)) t ->
  Forall (chunk_of t) final ->
  Splitter.process_splits chunk_size chunk_overlap recur splits good final
  = Ok res ->
  Forall (chunk_of t) res.
Proof.
  revert good final; induction splits as [|s rest IH];
    intros good final Hrec Hin Hf; cbn [Splitter.process_splits].
  - rewrite app_nil_r in Hin. now apply flush_chunk_of.
  - assert (Hgood : infix_of (concat good) t).
    { eapply infix_of_trans; [apply concat_app_infix_l | exact Hin]. }
    assert (Hs : infix_of s t).
    { eapply infix_of_trans; [|exact Hin].
      rewrite concat_app. simpl. exists (concat good), (concat rest).
      reflexivity. }
    assert (Hrest : infix_of (concat ([] ++ rest)) t).
    { eapply infix_of_trans; [|exact Hin].
      change (good ++ s :: rest) with (good ++ [s] ++ rest).
      rewrite app_assoc. apply concat_app_infix_r. }
    assert (Hrec' : match recur with
                    | Some f => forall s r, f s = Ok r -> Forall (chunk_of s) r
                    | None => Forall (fun s => len s < chunk_size) rest
                    end).
    { destruct recur; [exact Hrec|]. now inversion Hrec. }
    destruct (len s <? chunk_size) eqn:L.
    + apply IH; auto. now rewrite <- app_assoc.
    + destruct (Splitter.flush _ _ good final) as [final1|e] eqn:F;
        cbn [bind]; [|discriminate].
      pose proof (flush_chunk_of _ Hgood Hf F) as Hf1.
      destruct recur as [f|].
      * destruct (f s) as [other|e] eqn:R; cbn [bind]; [|discriminate].
        apply IH; auto. apply Forall_app. split; [exact Hf1|].
        eapply Forall_impl; [|eapply Hrec, R].
        intros ch Hch. eapply chunk_of_infix; eauto.
      * inversion Hrec as [|? ? Hlt _]; subst.
        apply Z.ltb_ge in L. lia.
Qed.

(** With the empty separator in the list, every chunk the splitter
    returns is a chunk of the text. *)
Lemma split_text_from_chunk_of (last_sep : text) (separators : list text) :
  In [] separators ->
  forall t res,
    Splitter.split_text_from chunk_size chunk_overlap last_sep separators t
    = Ok res ->
    Forall (chunk_of t) res.
Proof.
  assert (Hruns : forall t s, infix_of
            (concat ([] ++ Splitter.split_text_with_regex t s)) t).
  { intros t s. simpl. rewrite split_text_with_regex_concat.
    apply infix_of_refl. }
  induction separators as [|s rest IH]; [contradiction|].
  intros Hin t res. cbn [Splitter.split_text_from].
  destruct s as [|a s'].
  - apply process_splits_chunk_of; auto.
    apply Forall_forall. intros p Hp. apply split_chars_len in Hp. lia.
  - destruct Hin as [Hin|Hin]; [discriminate|].
    destruct (occurs (a :: s') t); [|now apply IH].
    destruct rest as [|r rest']; [contradiction|].
    apply process_splits_chunk_of; auto.
Qed.

End ChunkShape.

Lemma chunk_text_chunk_of (t : text) (chunks : list text) :
  chunk_text t = Ok chunks -> Forall (chunk_of t) chunks.
Proof.
  apply split_text_from_chunk_of.
  - unfold config.CHUNK_SIZE. lia.
  - apply separators_end_empty.
Qed.

(** ** Cutting at a separator *)











(** ** What the chunks keep of the text *)












(** ** Runs next to each other *)





Section CutFacts.

Local Open Scope Z_scope.

Variable chunk_size : Z.
Variable chunk_overlap : Z.









End CutFacts.

Section CutSpec.

Local Open Scope Z_scope.

Variable chunk_size : Z.
Variable chunk_overlap : Z.
Hypothesis overlap_nonneg : 0 <= chunk_overlap.
Hypothesis size_big : 1 < chunk_size.


End CutSpec.




(** ** More on the chunker *)

(** X1: chunking always returns; every chunk carries the metadata of one
    of the documents and its text is a non-empty run of that document's
    text, character for character, with no white space at either end. *)
Theorem chunk_documents_runs (documents : list Document) :
  exists chunks,
    chunk_documents documents = Ok chunks /\
    Forall (fun c => exists d,
                In d documents /\
                doc_metadata c = doc_metadata d /\
                chunk_of (page_content d) (page_content c)) chunks.
Proof.
  unfold chunk_documents.
  induction documents as [|doc rest (more & IH & Hmore)]; [simpl; eauto|].
  cbn [Splitter.split_documents].
  destruct (chunk_text_bounded (page_content doc)) as (cs & Hcs & _).
  pose proof (chunk_text_chunk_of _ Hcs) as Hshape.
  unfold chunk_text in Hcs. rewrite Hcs, IH. cbn [bind].
  eexists. split; [reflexivity|]. apply Forall_app. split.
  - apply Forall_forall. intros c Hc.
    apply in_map_iff in Hc as (x & <- & Hx).
    exists doc. simpl. split; [now left|]. split; [reflexivity|].
    rewrite Forall_forall in Hshape. now apply Hshape.
  - eapply Forall_impl; [|exact Hmore].
    intros c (d & Hd & H). exists d. split; [now right | exact H].
Qed.

(** ** More on ingestion *)

Section IngestMore.

Variable Vec : Type.
Variable path_name : text -> text.

Lemma set_tags_source_name (ty name : text) (d : Document) :
  md_get "source_name" (doc_metadata (set_tags ty name d))
  = Some (MStr name).
Proof. unfold set_tags. simpl. apply md_get_set_same. Qed.

Lemma tag_txt_docs_named (ty : text) (txt_docs docs : list Document) :
  tag_txt_docs path_name ty txt_docs = Ok docs ->
  Forall has_source_name docs.
Proof.
  revert docs; induction txt_docs as [|d ds IH]; simpl; intros docs.
  - intros [= <-]. constructor.
  - destruct (md_get "source" (doc_metadata d)) as [[src|z]|];
      try discriminate.
    destruct (tag_txt_docs path_name ty ds) as [more|e]; simpl;
      [|discriminate].
    intros [= <-]. constructor; [|now apply IH].
    eexists. apply set_tags_source_name.
Qed.

Lemma load_pdf_files_named (ty : text)
      (files : list (text * outcome (list Document))) :
  Forall has_source_name (load_pdf_files ty files).
Proof.
  induction files as [|[name [pdf_docs|e]] rest IH]; simpl; auto.
  apply Forall_app. split; [|exact IH].
  apply Forall_forall. intros d Hd.
  apply in_map_iff in Hd as (x & <- & _).
  eexists. apply set_tags_source_name.
Qed.

Lemma load_documents_named (directory : DirPath) (ty : text)
      (docs : list Document) :
  load_documents path_name directory ty = Ok docs ->
  Forall has_source_name docs.
Proof.
  unfold load_documents. destruct (dir_entry directory) as [d|];
    [|discriminate].
  intros [= <-]. apply Forall_app. split.
  - unfold load_txt.
    destruct (txt_loader d) as [txt_docs|e]; simpl; [|constructor].
    destruct (tag_txt_docs path_name ty txt_docs) eqn:T; [|constructor].
    eapply tag_txt_docs_named, T.
  - unfold load_pdf. destruct (pypdf_available d); [|constructor].
    destruct (pdf_files d); [apply load_pdf_files_named | constructor].
Qed.

(** What a successful ingestion went through. *)
Lemma run_ingestion_inv (w : IngestWorld Vec) (st st' : Chroma.store Vec)
      (c : Chroma.collection Vec) :
  run_ingestion path_name w st = (Ok (Some c), st') ->
  exists jobs cvs chunks emb new,
    load_documents path_name (DATA_JOBS_DIR w) config.DOC_TYPE_JOB = Ok jobs /\
    load_documents path_name (DATA_CVS_DIR w) config.DOC_TYPE_CV = Ok cvs /\
    jobs ++ cvs <> [] /\
    chunk_documents (jobs ++ cvs) = Ok chunks /\
    hf_embeddings w = Ok emb /\
    Chroma.embed_documents emb chunks = Ok new /\
    c = mkdir st ++ new /\ st' = Some c.
Proof.
  unfold run_ingestion.
  destruct (load_documents path_name (DATA_JOBS_DIR w) _) as [jobs|e] eqn:J;
    [|destruct (is_file_not_found e); discriminate].
  destruct (load_documents path_name (DATA_CVS_DIR w) _) as [cvs|e] eqn:C;
    [|destruct (is_file_not_found e); discriminate].
  destruct (jobs ++ cvs) as [|d0 ds] eqn:A; [discriminate|]. rewrite <- A.
  destruct (chunk_documents (jobs ++ cvs)) as [chunks|e] eqn:K;
    [|discriminate].
  unfold create_embeddings.
  destruct (hf_embeddings w) as [emb|e] eqn:H; [|discriminate].
  unfold create_vector_store, Chroma.from_documents.
  destruct (Chroma.embed_documents emb chunks) as [new|e] eqn:E; simpl;
    [|discriminate].
  intros [= <- <-]. exists jobs, cvs, chunks, emb, new.
  repeat split; auto. rewrite A. discriminate.
Qed.

(** The other direction: the run that succeeds. *)
Lemma run_ingestion_ok (w : IngestWorld Vec) (st : Chroma.store Vec)
      (jobs cvs chunks : list Document) (emb : Chroma.Embeddings Vec)
      (new : list (Chroma.record Vec)) :
  load_documents path_name (DATA_JOBS_DIR w) config.DOC_TYPE_JOB = Ok jobs ->
  load_documents path_name (DATA_CVS_DIR w) config.DOC_TYPE_CV = Ok cvs ->
  jobs ++ cvs <> [] ->
  chunk_documents (jobs ++ cvs) = Ok chunks ->
  hf_embeddings w = Ok emb ->
  Chroma.embed_documents emb chunks = Ok new ->
  run_ingestion path_name w st
  = (Ok (Some (mkdir st ++ new)), Some (mkdir st ++ new)).
Proof.
  intros J C A K H E. unfold run_ingestion. rewrite J, C.
  destruct (jobs ++ cvs) as [|d0 ds] eqn:A'; [congruence|].
  rewrite K. unfold create_embeddings. rewrite H.
  unfold create_vector_store, Chroma.from_documents. rewrite E. reflexivity.
Qed.

Lemma embed_documents_total (emb : Chroma.Embeddings Vec)
      (chunks : list Document) :
  (forall t, exists v, emb t = Ok v) ->
  exists new, Chroma.embed_documents emb chunks = Ok new.
Proof.
  intros H. induction chunks as [|d ds (more & IH)]; simpl; [eauto|].
  destruct (H (page_content d)) as (v & ->). rewrite IH. simpl. eauto.
Qed.

End IngestMore.

Lemma chunk_documents_total (documents : list Document) :
  exists chunks, chunk_documents documents = Ok chunks.
Proof.
  unfold chunk_documents.
  induction documents as [|doc rest (more & IH)]; [simpl; eauto|].
  cbn [Splitter.split_documents].
  destruct (chunk_text_bounded (page_content doc)) as (cs & Hcs & _).
  unfold chunk_text in Hcs. rewrite Hcs, IH. cbn [bind]. eauto.
Qed.

(** X2: every document [load_documents] returns carries the label it was
    loaded under as [doc_type], and a string as [source_name]. *)
Theorem load_documents_labels
        (path_name : text -> text) (directory : DirPath) (ty : text)
        (docs : list Document) :
  load_documents path_name directory ty = Ok docs ->
  Forall (fun d => has_doc_type ty d /\ has_source_name d) docs.
Proof.
  intros H. apply Forall_forall. intros d Hd. split.
  - pose proof (load_documents_tagged _ _ _ H) as T.
    rewrite Forall_forall in T. now apply T.
  - pose proof (load_documents_named _ _ _ H) as T.
    rewrite Forall_forall in T. now apply T.
Qed.

Lemma load_documents_labels_witness :
  Forall (fun d => has_doc_type config.DOC_TYPE_JOB d /\ has_source_name d)
         [Sample.job_chunk].
Proof.
  apply (@load_documents_labels Sample.base_name Sample.jobs_dir
           config.DOC_TYPE_JOB [Sample.job_chunk]).
  reflexivity.
Defined.

(** X3: [load_documents] raises exactly when the directory is missing, and
    then a [FileNotFoundError] that names the directory; a failing loader
    or a file that cannot be read never makes it raise. *)
Theorem load_documents_error
        (path_name : text -> text) (directory : DirPath) (ty : text) :
  (dir_entry directory = None <->
   exists e, load_documents path_name directory ty = Raise e) /\
  forall e, load_documents path_name directory ty = Raise e ->
    e = Exn FileNotFoundError
            (lit "Directory not found: " ++ dir_path directory).
Proof.
  unfold load_documents. destruct (dir_entry directory) as [d|]; split.
  - split; [discriminate|]. intros (e & H). discriminate H.
  - intros e H. discriminate H.
  - split; eauto.
  - now intros e [= <-].
Qed.

(** X4: a successful ingestion keeps the records the store held and adds
    records that each carry the job or the CV label and a source name. *)
Theorem run_ingestion_adds_labelled
        (Vec : Type) (path_name : text -> text) (w : IngestWorld Vec)
        (st st' : Chroma.store Vec) (c : Chroma.collection Vec) :
  run_ingestion path_name w st = (Ok (Some c), st') ->
  st' = Some c /\
  exists new,
    c = mkdir st ++ new /\
    Forall (fun r => known_doc_type (Chroma.rec_document r) /\
                     has_source_name (Chroma.rec_document r)) new.
Proof.
  intros H.
  destruct (run_ingestion_inv _ _ _ H)
    as (jobs & cvs & chunks & emb & new & J & C & _ & K & _ & E & -> & ->).
  split; [reflexivity|]. exists new. split; [reflexivity|].
  assert (Hdocs : Forall (fun d => known_doc_type d /\ has_source_name d)
                         (jobs ++ cvs)).
  { pose proof (load_documents_tagged _ _ _ J) as TJ.
    pose proof (load_documents_named _ _ _ J) as NJ.
    pose proof (load_documents_tagged _ _ _ C) as TC.
    pose proof (load_documents_named _ _ _ C) as NC.
    rewrite Forall_forall in *. intros d Hd.
    apply in_app_or in Hd as [Hd|Hd]; split; auto.
    - left. now apply TJ.
    - right. now apply TC. }
  pose proof (split_documents_metadata
                (fun m =>
                   (md_get "doc_type" m = Some (MStr config.DOC_TYPE_JOB) \/
                    md_get "doc_type" m = Some (MStr config.DOC_TYPE_CV)) /\
                   exists name, md_get "source_name" m = Some (MStr name))
                _ _ _ K Hdocs) as Hchunks.
  apply embed_documents_chunks in E. subst chunks.
  rewrite Forall_map in Hchunks. exact Hchunks.
Qed.

Lemma run_ingestion_adds_labelled_witness :
  Some [Sample.job_record] = Some [Sample.job_record] /\
  exists new,
    [Sample.job_record] = mkdir None ++ new /\
    Forall (fun r => known_doc_type (Chroma.rec_document r) /\
                     has_source_name (Chroma.rec_document r)) new.
Proof.
  apply (@run_ingestion_adds_labelled Z Sample.base_name
           Sample.world_jobs_only None (Some [Sample.job_record])
           [Sample.job_record]).
  reflexivity.
Defined.

(** X5: when both directories can be read, at least one document was
    loaded, the embedding model loads and embeds every text, chunking
    returns, and if it yields at least one chunk ingestion returns the
    store with one new record per chunk. *)
Theorem run_ingestion_succeeds
        (Vec : Type) (path_name : text -> text) (w : IngestWorld Vec)
        (st : Chroma.store Vec) (jobs cvs : list Document)
        (emb : Chroma.Embeddings Vec) :
  load_documents path_name (DATA_JOBS_DIR w) config.DOC_TYPE_JOB = Ok jobs ->
  load_documents path_name (DATA_CVS_DIR w) config.DOC_TYPE_CV = Ok cvs ->
  jobs ++ cvs <> [] ->
  hf_embeddings w = Ok emb ->
  (forall t, exists v, emb t = Ok v) ->
  exists chunks,
    chunk_documents (jobs ++ cvs) = Ok chunks /\
    (chunks <> [] ->
     exists new,
       map (@Chroma.rec_document Vec) new = chunks /\
       run_ingestion path_name w st
       = (Ok (Some (mkdir st ++ new)), Some (mkdir st ++ new))).
Proof.
  intros J C A H T.
  destruct (chunk_documents_total (jobs ++ cvs)) as (chunks & K).
  exists chunks. split; [exact K|]. intros _.
  destruct (@embed_documents_total Vec emb chunks T) as (new & E).
  exists new. split.
  - eapply embed_documents_chunks, E.
  - eapply run_ingestion_ok; eauto.
Qed.

Lemma run_ingestion_succeeds_witness :
  exists chunks,
    chunk_documents ([Sample.job_chunk] ++ []) = Ok chunks /\
    (chunks <> [] ->
     exists new,
       map (@Chroma.rec_document Z) new = chunks /\
       run_ingestion Sample.base_name Sample.world_jobs_only
                     (Some [Sample.cv_record])
       = (Ok (Some (mkdir (Some [Sample.cv_record]) ++ new)),
          Some (mkdir (Some [Sample.cv_record]) ++ new))).
Proof.
  apply (@run_ingestion_succeeds Z Sample.base_name Sample.world_jobs_only
           (Some [Sample.cv_record]) [Sample.job_chunk] []
           Sample.embed_len).
  - reflexivity.
  - reflexivity.
  - discriminate.
  - reflexivity.
  - intros t. exists (len t). reflexivity.
Defined.

(** X6: what a successful ingestion adds does not depend on the store:
    run again on the same directories it adds the same records a second
    time, after the first copy. *)
Theorem run_ingestion_twice
        (Vec : Type) (path_name : text -> text) (w : IngestWorld Vec)
        (st st' : Chroma.store Vec) (c : Chroma.collection Vec) :
  run_ingestion path_name w st = (Ok (Some c), st') ->
  exists new,
    c = mkdir st ++ new /\
    run_ingestion path_name w st' = (Ok (Some (c ++ new)), Some (c ++ new)).
Proof.
  intros H.
  destruct (run_ingestion_inv _ _ _ H)
    as (jobs & cvs & chunks & emb & new & J & C & A & K & Hf & E & -> & ->).
  exists new. split; [reflexivity|].
  now apply (@run_ingestion_ok Vec path_name w (Some (mkdir st ++ new))
               jobs cvs chunks emb new J C A K Hf E).
Qed.

Lemma run_ingestion_twice_witness :
  exists new,
    [Sample.job_record] = mkdir None ++ new /\
    run_ingestion Sample.base_name Sample.world_jobs_only
                  (Some [Sample.job_record])
    = (Ok (Some ([Sample.job_record] ++ new)),
       Some ([Sample.job_record] ++ new)).
Proof.
  apply (@run_ingestion_twice Z Sample.base_name Sample.world_jobs_only
           None (Some [Sample.job_record]) [Sample.job_record]).
  reflexivity.
Defined.

(** ** More on retrieval and analysis *)

Section AnalyzerMore.

Variable Vec : Type.
Variable nearer : Vec -> Vec -> Vec -> bool.

Implicit Types (self : SkillGapAnalyzer Vec) (c : Chroma.collection Vec).

(** What [get_relevant_jobs] returns once the role is embedded. *)
Lemma get_relevant_jobs_ok self c role k (q : Vec) :
  embeddings self role = Ok q ->
  fst (get_relevant_jobs nearer self c role k)
  = Ok (map (@Chroma.rec_document Vec)
            (firstn (match k with Some k' => k' | None => 5%nat end)
                    (Chroma.rank nearer q (job_records c)))).
Proof.
  intros H. unfold get_relevant_jobs, get_relevant_jobs_k.
  unfold Chroma.similarity_search. simpl. rewrite H. reflexivity.
Qed.

Lemma rank_nil_iff (q : Vec) (rs : list (Chroma.record Vec)) :
  Chroma.rank nearer q rs = [] <-> rs = [].
Proof.
  split; [|now intros ->].
  intros H. apply (f_equal (@length _)) in H.
  rewrite length_rank in H. now destruct rs.
Qed.

Lemma analyze_gap_without_jobs self c cv_text role (q : Vec) :
  embeddings self role = Ok q ->
  job_records c = [] ->
  analyze_gap nearer self c cv_text role
  = (Ok NO_JOBS_MESSAGE, [EmbedQuery role]).
Proof.
  intros H Hj. unfold analyze_gap.
  pose proof (get_relevant_jobs_ok self c role None H) as G.
  pose proof (get_relevant_jobs_trace nearer self c role None) as T.
  destruct (get_relevant_jobs nearer self c role None) as [o tr].
  simpl in G, T. subst o tr. rewrite Hj. reflexivity.
Qed.

Lemma not_job_label (r : Chroma.record Vec) :
  has_doc_type config.DOC_TYPE_CV (Chroma.rec_document r) ->
  Chroma.matches "doc_type" config.DOC_TYPE_JOB r = false.
Proof.
  unfold has_doc_type, Chroma.matches. intros ->. reflexivity.
Qed.

Lemma job_records_app c c' :
  job_records (c ++ c') = job_records c ++ job_records c'.
Proof. apply filter_app. Qed.

Lemma job_records_none c :
  Forall (fun r => has_doc_type config.DOC_TYPE_CV (Chroma.rec_document r)) c ->
  job_records c = [].
Proof.
  induction 1 as [|r c Hr _ IH]; [reflexivity|].
  unfold job_records in *. simpl. now rewrite (not_job_label _ Hr).
Qed.

End AnalyzerMore.

(** X7: after an ingestion that found no job posting, into a store
    without job chunks, every analysis ends with the fixed message and
    the chain is not invoked, whatever CVs were ingested. *)
Theorem analyze_gap_after_cv_only_ingestion
        (Vec : Type) (nearer : Vec -> Vec -> Vec -> bool)
        (path_name : text -> text) (w : IngestWorld Vec)
        (st st' : Chroma.store Vec) (c : Chroma.collection Vec)
        (self : SkillGapAnalyzer Vec) (cv_text role : text) (q : Vec) :
  load_documents path_name (DATA_JOBS_DIR w) config.DOC_TYPE_JOB = Ok [] ->
  job_records (mkdir st) = [] ->
  run_ingestion path_name w st = (Ok (Some c), st') ->
  embeddings self role = Ok q ->
  analyze_gap nearer self c cv_text role
  = (Ok NO_JOBS_MESSAGE, [EmbedQuery role]).
Proof.
  intros J0 Hst H Hq.
  destruct (run_ingestion_inv _ _ _ H)
    as (jobs & cvs & chunks & emb & new & J & C & _ & K & _ & E & -> & _).
  rewrite J0 in J. injection J as <-. simpl in K.
  apply (analyze_gap_without_jobs nearer self _ cv_text role Hq).
  rewrite job_records_app, Hst. simpl. apply job_records_none.
  pose proof (load_documents_tagged _ _ _ C) as TC.
  pose proof (split_documents_metadata
                (fun m => md_get "doc_type" m
                          = Some (MStr config.DOC_TYPE_CV)) _ _ _ K TC)
    as Hchunks.
  apply embed_documents_chunks in E. subst chunks.
  rewrite Forall_map in Hchunks. exact Hchunks.
Qed.

Lemma analyze_gap_after_cv_only_ingestion_witness :
  analyze_gap Sample.nearer Sample.analyzer [Sample.cv_record]
              Sample.cv_text Sample.role
  = (Ok NO_JOBS_MESSAGE, [EmbedQuery Sample.role]).
Proof.
  apply (@analyze_gap_after_cv_only_ingestion Z Sample.nearer
           Sample.base_name Sample.world_cv_only None
           (Some [Sample.cv_record]) [Sample.cv_record]
           Sample.analyzer Sample.cv_text Sample.role 17%Z).
  - reflexivity.
  - reflexivity.
  - reflexivity.
  - reflexivity.
Defined.

(** X8: once the role is embedded, [get_relevant_jobs] asked for at least
    one chunk returns as many chunks as were asked for (5 when [k] is left
    out), or all the job chunks of the collection when there are fewer:
    never an error for a small store. *)
Theorem get_relevant_jobs_count
        (Vec : Type) (nearer : Vec -> Vec -> Vec -> bool)
        (self : SkillGapAnalyzer Vec) (c : Chroma.collection Vec)
        (role : text) (k : option nat) (q : Vec) :
  embeddings self role = Ok q ->
  k <> Some 0%nat ->
  exists docs,
    fst (get_relevant_jobs nearer self c role k) = Ok docs /\
    length docs
    = Nat.min (match k with Some k' => k' | None => config.RETRIEVAL_K end)
              (length (job_records c)).
Proof.
  intros H _. eexists. split.
  - apply (get_relevant_jobs_ok nearer self c role k H).
  - rewrite length_map, length_firstn, length_rank. reflexivity.
Qed.

Lemma get_relevant_jobs_count_witness :
  exists docs,
    fst (get_relevant_jobs Sample.nearer Sample.analyzer Sample.both
                           Sample.role None) = Ok docs /\
    length docs
    = Nat.min config.RETRIEVAL_K (length (job_records Sample.both)).
Proof.
  apply (@get_relevant_jobs_count Z Sample.nearer Sample.analyzer
           Sample.both Sample.role None 17%Z).
  - reflexivity.
  - discriminate.
Defined.

(** X9: [analyze_gap] embeds the role first and invokes the chain at most
    once, after that: there is no retry and no second query. *)
Theorem analyze_gap_calls
        (Vec : Type) (nearer : Vec -> Vec -> Vec -> bool)
        (self : SkillGapAnalyzer Vec) (c : Chroma.collection Vec)
        (cv_text role : text) :
  snd (analyze_gap nearer self c cv_text role) = [EmbedQuery role] \/
  exists job_context,
    snd (analyze_gap nearer self c cv_text role)
    = [EmbedQuery role; ChainInvoke role job_context cv_text].
Proof.
  unfold analyze_gap.
  pose proof (get_relevant_jobs_trace nearer self c role None) as T.
  destruct (get_relevant_jobs nearer self c role None) as [[docs|e] tr];
    simpl in T; subst tr; [|now left].
  destruct docs as [|d ds]; [now left|]. right.
  destruct (chain self role _ cv_text); eexists; reflexivity.
Qed.

(** X10: [analyze_gap] raises exactly when the embedding of the role
    raises, and then that exception; a failure of the chain never leaves
    it. *)
Theorem analyze_gap_raises_iff
        (Vec : Type) (nearer : Vec -> Vec -> Vec -> bool)
        (self : SkillGapAnalyzer Vec) (c : Chroma.collection Vec)
        (cv_text role : text) (e : exn) :
  fst (analyze_gap nearer self c cv_text role) = Raise e <->
  embeddings self role = Raise e.
Proof.
  rewrite <- (get_relevant_jobs_raises nearer self c role None e).
  unfold analyze_gap.
  destruct (get_relevant_jobs nearer self c role None) as [[docs|e'] tr];
    simpl; [|split; intros [= ->]; reflexivity].
  destruct docs as [|d ds]; simpl; [split; discriminate|].
  destruct (chain self role _ cv_text); simpl; split; discriminate.
Qed.

(** X11: when the role is embedded and the collection holds a job chunk,
    the chain is invoked exactly once, on a context of between one and
    five blocks made of job chunks of the collection; its answer is
    returned as it is, its failure as the error string. *)
Theorem analyze_gap_with_jobs
        (Vec : Type) (nearer : Vec -> Vec -> Vec -> bool)
        (self : SkillGapAnalyzer Vec) (c : Chroma.collection Vec)
        (cv_text role : text) (q : Vec) :
  embeddings self role = Ok q ->
  job_records c <> [] ->
  exists docs,
    docs <> [] /\ (length docs <= 5)%nat /\
    Forall (fun d => has_doc_type config.DOC_TYPE_JOB d /\
                     In d (map (@Chroma.rec_document Vec) c)) docs /\
    analyze_gap nearer self c cv_text role
    = (match chain self role (job_context_of docs) cv_text with
       | Ok report => Ok report
       | Raise e => Ok (analysis_error_message e)
       end,
       [EmbedQuery role; ChainInvoke role (job_context_of docs) cv_text]).
Proof.
  intros H Hj.
  pose proof (get_relevant_jobs_ok nearer self c role None H) as G.
  pose proof (get_relevant_jobs_trace nearer self c role None) as T.
  set (docs := map (@Chroma.rec_document Vec)
                   (firstn 5 (Chroma.rank nearer q (job_records c)))) in *.
  exists docs. split; [|split; [|split]].
  - intros E. apply (f_equal (@length _)) in E. subst docs.
    rewrite length_map, length_firstn, length_rank in E.
    destruct (job_records c); [congruence | simpl in E; lia].
  - subst docs. rewrite length_map, length_firstn. lia.
  - apply Forall_forall. intros d Hd. subst docs.
    apply in_map_iff in Hd as (r & <- & Hr).
    apply In_firstn_In, In_rank, filter_In in Hr as [Hc Hm]. split.
    + now apply matches_doc_type.
    + now apply in_map.
  - unfold analyze_gap.
    destruct (get_relevant_jobs nearer self c role None) as [o tr].
    simpl in G, T. subst o tr.
    destruct docs as [|d ds] eqn:D.
    + exfalso. apply (f_equal (@length _)) in D. subst docs.
      rewrite length_map, length_firstn, length_rank in D.
      destruct (job_records c); [congruence | simpl in D; lia].
    + destruct (chain self role _ cv_text); reflexivity.
Qed.

Lemma analyze_gap_with_jobs_witness :
  exists docs,
    docs <> [] /\ (length docs <= 5)%nat /\
    Forall (fun d => has_doc_type config.DOC_TYPE_JOB d /\
                     In d (map (@Chroma.rec_document Z) Sample.both)) docs /\
    analyze_gap Sample.nearer Sample.analyzer_llm_down Sample.both
                Sample.cv_text Sample.role
    = (match chain Sample.analyzer_llm_down Sample.role
                   (job_context_of docs) Sample.cv_text with
       | Ok report => Ok report
       | Raise e => Ok (analysis_error_message e)
       end,
       [EmbedQuery Sample.role;
        ChainInvoke Sample.role (job_context_of docs) Sample.cv_text]).
Proof.
  apply (@analyze_gap_with_jobs Z Sample.nearer Sample.analyzer_llm_down
           Sample.both Sample.cv_text Sample.role 17%Z).
  - reflexivity.
  - discriminate.
Defined.

(** X12: with the persist directory missing no analyzer is constructed:
    [__init__] raises the key error, or the exception of the embedding
    model, or the not-found error, in that order of precedence. *)
Theorem init_without_store
        (Vec : Type) (CHROMA_PERSIST_DIR : text) (env : Env Vec) :
  (key_rejected (groq_api_key env) = true /\
   init CHROMA_PERSIST_DIR env None = Raise missing_key_error) \/
  (key_rejected (groq_api_key env) = false /\
   exists e, hf_embeddings_init env = Raise e /\
             init CHROMA_PERSIST_DIR env None = Raise e) \/
  (key_rejected (groq_api_key env) = false /\
   (exists emb, hf_embeddings_init env = Ok emb) /\
   init CHROMA_PERSIST_DIR env None
   = Raise (missing_store_error CHROMA_PERSIST_DIR)).
Proof.
  unfold init. destruct (key_rejected (groq_api_key env)); [now left|].
  right. destruct (hf_embeddings_init env) as [emb|e]; simpl.
  - right. eauto.
  - left. eauto.
Qed.

(** X13: a non-empty Streamlit secret is the key that is used, whatever
    the process environment holds; if that secret is the placeholder,
    construction is refused even though the environment may hold a real
    key. *)
Theorem groq_api_key_secret_first
        (Vec : Type) (CHROMA_PERSIST_DIR : text) (env : Env Vec)
        (secret : text) :
  st_secrets_get env = Ok (Some secret) ->
  secret <> [] ->
  groq_api_key env = Some secret /\
  (secret = PLACEHOLDER_KEY ->
   forall st, init CHROMA_PERSIST_DIR env st = Raise missing_key_error).
Proof.
  intros H Hne.
  assert (K : groq_api_key env = Some secret).
  { unfold groq_api_key. rewrite H. simpl.
    destruct secret; [congruence | reflexivity]. }
  split; [exact K|]. intros -> st. unfold init. rewrite K. reflexivity.
Qed.

Lemma groq_api_key_secret_first_witness :
  groq_api_key Sample.env_secret_placeholder = Some PLACEHOLDER_KEY /\
  (PLACEHOLDER_KEY = PLACEHOLDER_KEY ->
   forall st, init Sample.persist_dir Sample.env_secret_placeholder st
              = Raise missing_key_error).
Proof.
  apply (@groq_api_key_secret_first Z Sample.persist_dir
           Sample.env_secret_placeholder PLACEHOLDER_KEY).
  - reflexivity.
  - discriminate.
Defined.

(** ** Job titles *)

Lemma text_compare_eq (a b : text) : text_compare a b = Eq <-> a = b.
Proof.
  revert b; induction a as [|x a IH]; intros [|y b]; simpl;
    try (split; [discriminate | congruence]); [tauto|].
  destruct (N.compare x y) eqn:C.
  - apply N.compare_eq_iff in C. subst y. rewrite IH.
    split; [congruence | now intros [= ->]].
  - split; [discriminate|]. intros [= -> _].
    rewrite N.compare_refl in C. discriminate.
  - split; [discriminate|]. intros [= -> _].
    rewrite N.compare_refl in C. discriminate.
Qed.

Lemma text_compare_antisym (a b : text) :
  text_compare b a = CompOpp (text_compare a b).
Proof.
  revert b; induction a as [|x a IH]; intros [|y b]; simpl; try reflexivity.
  rewrite (N.compare_antisym x y).
  destruct (N.compare x y); simpl; auto.
Qed.

Lemma text_lt_trans (a b c : text) : text_lt a b -> text_lt b c -> text_lt a c.
Proof.
  unfold text_lt. revert b c; induction a as [|x a IH]; intros [|y b] [|z c];
    simpl; try discriminate; auto.
  destruct (N.compare x y) eqn:Cxy; try discriminate;
    destruct (N.compare y z) eqn:Cyz; try discriminate; intros H1 H2.
  - apply N.compare_eq_iff in Cxy, Cyz. subst. rewrite N.compare_refl.
    eapply IH; eauto.
  - apply N.compare_eq_iff in Cxy. subst. now rewrite Cyz.
  - apply N.compare_eq_iff in Cyz. subst. now rewrite Cxy.
  - apply N.compare_lt_iff in Cxy, Cyz.
    assert (L : (x < z)%N) by (eapply N.lt_trans; eauto).
    apply N.compare_lt_iff in L.
    now rewrite L.
Qed.

Lemma text_lt_irrefl (a : text) : ~ text_lt a a.
Proof.
  unfold text_lt. intros H.
  assert (E : text_compare a a = Eq) by now apply text_compare_eq.
  congruence.
Qed.

Lemma In_add_title (t x : text) (titles : list text) :
  In x (add_title t titles) <-> x = t \/ In x titles.
Proof.
  induction titles as [|y rest IH]; simpl; [intuition|].
  destruct (text_compare t y) eqn:C; simpl.
  - apply text_compare_eq in C. subst y. intuition.
  - intuition.
  - rewrite IH. intuition.
Qed.

Lemma add_title_sorted (t : text) (titles : list text) :
  Sorted text_lt titles -> Sorted text_lt (add_title t titles).
Proof.
  induction 1 as [|y rest Hs IH Hd]; simpl; [repeat constructor|].
  destruct (text_compare t y) eqn:C.
  - now constructor.
  - constructor; [now constructor|]. now constructor.
  - constructor; [exact IH|].
    assert (Hyt : text_lt y t).
    { unfold text_lt. rewrite text_compare_antisym, C. reflexivity. }
    destruct rest as [|z rest']; simpl; [now constructor|].
    inversion Hd; subst.
    destruct (text_compare t z); now constructor.
Qed.

Section TitleFacts.

Variable Vec : Type.
Variable str_upper : text -> text.

Lemma collect_titles_sorted (docs titles : list text) :
  Sorted text_lt titles ->
  Sorted text_lt (collect_titles str_upper docs titles).
Proof.
  revert titles; induction docs as [|doc rest IH]; intros titles H;
    simpl; [exact H|].
  apply IH. destruct (title_of str_upper doc); [|exact H].
  now apply add_title_sorted.
Qed.

Lemma In_collect_titles (docs titles : list text) (t : text) :
  In t (collect_titles str_upper docs titles) <->
  In t titles \/ exists doc, In doc docs /\ title_of str_upper doc = Some t.
Proof.
  revert titles; induction docs as [|doc rest IH]; intros titles; simpl.
  - split; [auto|]. intros [H|(doc & [] & _)]. exact H.
  - rewrite IH. destruct (title_of str_upper doc) as [t'|] eqn:T.
    + rewrite In_add_title. split.
      * intros [[->|H]|(d & Hd & Ht)]; eauto 6.
      * intros [H|(d & [<-|Hd] & Ht)]; eauto 6.
        left. left. congruence.
    + split.
      * intros [H|(d & Hd & Ht)]; eauto 6.
      * intros [H|(d & [<-|Hd] & Ht)]; eauto 6. congruence.
Qed.

Lemma matches_iff (key : string) (value : text) (r : Chroma.record Vec) :
  Chroma.matches key value r = true <->
  md_get key (doc_metadata (Chroma.rec_document r)) = Some (MStr value).
Proof.
  unfold Chroma.matches.
  destruct (md_get key _) as [v|]; [|split; discriminate].
  rewrite mvalue_eqb_eq. split; congruence.
Qed.

End TitleFacts.

(** X14: the titles [get_all_job_titles] returns are in ascending order of
    Python strings and no title occurs twice. *)
Theorem get_all_job_titles_sorted
        (Vec : Type) (str_upper : text -> text) (c : Chroma.collection Vec) :
  StronglySorted text_lt (get_all_job_titles str_upper c) /\
  NoDup (get_all_job_titles str_upper c).
Proof.
  assert (S : StronglySorted text_lt (get_all_job_titles str_upper c)).
  { apply Sorted_StronglySorted.
    - intros x y z. apply text_lt_trans.
    - apply collect_titles_sorted. constructor. }
  split; [exact S|].
  induction S as [|t l S IH Hall]; constructor; [|exact IH].
  intros Hin. rewrite Forall_forall in Hall.
  exact (text_lt_irrefl (Hall _ Hin)).
Qed.

(** X15: a title is returned exactly when some record labelled as a job
    has a non-empty text whose first line, in upper case, contains
    [JOB TITLE:]; the title is what follows the first colon of that line,
    stripped.  Records labelled as CVs contribute nothing. *)
Theorem get_all_job_titles_spec
        (Vec : Type) (str_upper : text -> text) (c : Chroma.collection Vec)
        (t : text) :
  In t (get_all_job_titles str_upper c) <->
  exists r,
    In r c /\
    has_doc_type config.DOC_TYPE_JOB (Chroma.rec_document r) /\
    page_content (Chroma.rec_document r) <> [] /\
    occurs JOB_TITLE_MARKER
           (str_upper (first_line (page_content (Chroma.rec_document r))))
    = true /\
    t = strip (split_colon_last
                 (first_line (page_content (Chroma.rec_document r)))).
Proof.
  unfold get_all_job_titles, get_all_job_titles_from, Chroma.get_documents.
  rewrite In_collect_titles. split.
  - intros [[]|(doc & Hd & Ht)].
    apply in_map_iff in Hd as (r & <- & Hr).
    apply filter_In in Hr as [Hc Hm]. apply matches_iff in Hm.
    exists r. split; [exact Hc|]. split; [exact Hm|].
    unfold title_of in Ht.
    destruct (page_content (Chroma.rec_document r)) as [|x p] eqn:P;
      [discriminate|]. cbn [truthy] in Ht.
    destruct (occurs _ _) eqn:O; [|discriminate].
    split; [discriminate|]. split; [reflexivity|]. now injection Ht.
  - intros (r & Hc & Hm & Hne & Ho & ->). right.
    exists (page_content (Chroma.rec_document r)). split.
    + apply in_map_iff. exists r. split; [reflexivity|].
      apply filter_In. split; [exact Hc|]. now apply matches_iff.
    + unfold title_of.
      destruct (page_content (Chroma.rec_document r)) as [|x p];
        [congruence|]. cbn [truthy]. now rewrite Ho.
Qed.

(** ** The page *)

Section AppFacts.

Variable Vec : Type.
Variable nearer : Vec -> Vec -> Vec -> bool.
Variable CHROMA_PERSIST_DIR : text.
Variable path_name : text -> text.
Variable str_lower : text -> text.

(** The key the page tests is the key [__init__] tests. *)
Lemma groq_api_key_as_page (env : Env Vec) (secret : option text) :
  st_secrets_get env = Ok secret ->
  groq_api_key env = py_or secret (getenv env).
Proof. unfold groq_api_key. now intros ->. Qed.

Lemma analysis_failed_not_found (e : exn) :
  exn_class e = FileNotFoundError -> analysis_failed e = VectorStoreNotFound.
Proof. unfold analysis_failed, is_file_not_found. now intros ->. Qed.

Lemma analysis_failed_other (e : exn) :
  exn_class e <> FileNotFoundError -> analysis_failed e = error_box e.
Proof.
  unfold analysis_failed, is_file_not_found.
  destruct (exn_class e); congruence.
Qed.

End AppFacts.

(** X16: with a CV that is empty or all white space the page only warns:
    no secret is read, no analyzer is built, nothing is called, and the
    session state stays as it was. *)
Theorem on_analyze_empty_cv
        (Vec : Type) (nearer : Vec -> Vec -> Vec -> bool)
        (CHROMA_PERSIST_DIR : text) (str_lower : text -> text)
        (env : Env Vec) (st : Chroma.store Vec) (ss : session Vec)
        (selected_role cv_text : text) :
  strip cv_text = [] ->
  on_analyze nearer CHROMA_PERSIST_DIR str_lower env st ss selected_role
             cv_text
  = Ok (EmptyCvWarning, ss, []).
Proof. intros H. unfold on_analyze. now rewrite H. Qed.

Lemma on_analyze_empty_cv_witness :
  on_analyze Sample.nearer Sample.persist_dir Sample.ascii_lower
             Sample.env_no_key None None Sample.role (lit "  " ++ nl)
  = Ok (EmptyCvWarning, None, []).
Proof.
  apply (@on_analyze_empty_cv Z Sample.nearer Sample.persist_dir
           Sample.ascii_lower Sample.env_no_key None None Sample.role
           (lit "  " ++ nl)).
  reflexivity.
Defined.

(** X17: the first analysis with a configured key, a loadable embedding
    model and no persist directory shows the box that asks for a rebuild;
    the key check of [__init__] cannot fire, because the page has made the
    same check, and no analyzer is cached. *)
Theorem on_analyze_missing_store
        (Vec : Type) (nearer : Vec -> Vec -> Vec -> bool)
        (CHROMA_PERSIST_DIR : text) (str_lower : text -> text)
        (env : Env Vec) (selected_role cv_text : text)
        (secret : option text) (emb : Chroma.Embeddings Vec) :
  strip cv_text <> [] ->
  st_secrets_get env = Ok secret ->
  key_rejected (py_or secret (getenv env)) = false ->
  hf_embeddings_init env = Ok emb ->
  on_analyze nearer CHROMA_PERSIST_DIR str_lower env None None selected_role
             cv_text
  = Ok (VectorStoreNotFound, None, []).
Proof.
  intros Hcv Hs Hk He. unfold on_analyze.
  destruct (strip cv_text) as [|x t]; [congruence|]. cbn [truthy negb].
  rewrite Hs. cbn [bind]. rewrite Hk.
  unfold init. rewrite (groq_api_key_as_page env Hs), Hk, He. reflexivity.
Qed.

Lemma on_analyze_missing_store_witness :
  on_analyze Sample.nearer Sample.persist_dir Sample.ascii_lower
             Sample.env_with_key None None Sample.role Sample.cv_text
  = Ok (VectorStoreNotFound, None, []).
Proof.
  apply (@on_analyze_missing_store Z Sample.nearer Sample.persist_dir
           Sample.ascii_lower Sample.env_with_key Sample.role Sample.cv_text
           None Sample.embed_len).
  - discriminate.
  - reflexivity.
  - reflexivity.
  - reflexivity.
Defined.

(** X18: the analysis handler lets an exception out only when the CV is
    not blank and the look-up of the secret raises; every failure of the
    construction of the analyzer and of the analysis ends in a view. *)
Theorem on_analyze_raises_iff
        (Vec : Type) (nearer : Vec -> Vec -> Vec -> bool)
        (CHROMA_PERSIST_DIR : text) (str_lower : text -> text)
        (env : Env Vec) (st : Chroma.store Vec) (ss : session Vec)
        (selected_role cv_text : text) (e : exn) :
  on_analyze nearer CHROMA_PERSIST_DIR str_lower env st ss selected_role
             cv_text = Raise e <->
  strip cv_text <> [] /\ st_secrets_get env = Raise e.
Proof.
  unfold on_analyze.
  destruct (strip cv_text) as [|x t]; cbn [truthy negb].
  - split; [discriminate|]. now intros [H _].
  - destruct (st_secrets_get env) as [secret|e']; cbn [bind].
    + split; [|intros [_ H]; discriminate H].
      destruct (key_rejected _); [discriminate|].
      destruct (match ss with Some a => Ok a | None => _ end) as [a|e'];
        [|discriminate].
      destruct (analyze_gap nearer a (contents st) _ _) as [[r|e'] tr];
        discriminate.
    + split.
      * intros [= ->]. split; [discriminate | reflexivity].
      * now intros [_ [= ->]].
Qed.

(** X19: an exception that [analyze_gap] lets through, such as a failure
    of the embedding of the role, ends in a box and the analyzer stays
    cached: the error box with the exception's text, or, for a
    [FileNotFoundError], the box that asks for a rebuild, without the
    text. *)
Theorem on_analyze_embedding_failure
        (Vec : Type) (nearer : Vec -> Vec -> Vec -> bool)
        (CHROMA_PERSIST_DIR : text) (str_lower : text -> text)
        (env : Env Vec) (st : Chroma.store Vec)
        (analyzer : SkillGapAnalyzer Vec)
        (selected_role cv_text : text) (secret : option text) (e : exn) :
  strip cv_text <> [] ->
  st_secrets_get env = Ok secret ->
  key_rejected (py_or secret (getenv env)) = false ->
  embeddings analyzer selected_role = Raise e ->
  on_analyze nearer CHROMA_PERSIST_DIR str_lower env st (Some analyzer)
             selected_role cv_text
  = Ok (match exn_class e with
        | FileNotFoundError => VectorStoreNotFound
        | _ => ErrorBox ([10060%N] ++ lit " Error: " ++ exn_str e)
        end,
        Some analyzer, [EmbedQuery selected_role]).
Proof.
  intros Hcv Hs Hk He. unfold on_analyze.
  destruct (strip cv_text) as [|x t]; [congruence|]. cbn [truthy negb].
  rewrite Hs. cbn [bind]. rewrite Hk.
  pose proof (proj2 (get_relevant_jobs_raises nearer analyzer (contents st)
                       selected_role None e) He) as G.
  pose proof (get_relevant_jobs_trace nearer analyzer (contents st)
                selected_role None) as T.
  unfold analyze_gap.
  destruct (get_relevant_jobs nearer analyzer (contents st) selected_role
              None) as [o tr].
  simpl in G, T. subst o tr.
  unfold analysis_failed, is_file_not_found, error_box.
  destruct (exn_class e); reflexivity.
Qed.

Lemma on_analyze_embedding_failure_witness :
  on_analyze Sample.nearer Sample.persist_dir Sample.ascii_lower
             Sample.env_with_key (Some Sample.both)
             (Some Sample.analyzer_embed_down) Sample.role Sample.cv_text
  = Ok (ErrorBox ([10060%N] ++ lit " Error: "
                  ++ lit "embedding model unavailable"),
        Some Sample.analyzer_embed_down, [EmbedQuery Sample.role]).
Proof.
  apply (@on_analyze_embedding_failure Z Sample.nearer Sample.persist_dir
           Sample.ascii_lower Sample.env_with_key (Some Sample.both)
           Sample.analyzer_embed_down Sample.role Sample.cv_text None
           (Exn ExternalError (lit "embedding model unavailable"))).
  - discriminate.
  - reflexivity.
  - reflexivity.
  - reflexivity.
Defined.

(** X20: the rebuild button reports success whenever [run_ingestion] does
    not raise: with an input directory missing, or no document in either,
    it shows the success message and drops the cached analyzer although
    nothing was written. *)
Theorem on_rebuild_success_without_write
        (Vec : Type) (path_name : text -> text) (w : IngestWorld Vec)
        (st : Chroma.store Vec) (ss : session Vec) :
  dir_entry (DATA_JOBS_DIR w) = None \/
  dir_entry (DATA_CVS_DIR w) = None \/
  (load_documents path_name (DATA_JOBS_DIR w) config.DOC_TYPE_JOB = Ok [] /\
   load_documents path_name (DATA_CVS_DIR w) config.DOC_TYPE_CV = Ok []) ->
  on_rebuild path_name w st ss = (RebuildSuccess, st, None).
Proof.
  intros H. unfold on_rebuild, run_ingestion.
  destruct (load_documents path_name (DATA_JOBS_DIR w) _) as [jobs|e] eqn:J.
  - destruct H as [H|[H|[Hj Hc]]].
    + destruct (load_documents_missing path_name (DATA_JOBS_DIR w)
                  config.DOC_TYPE_JOB H) as (e & He & _). congruence.
    + destruct (load_documents_missing path_name (DATA_CVS_DIR w)
                  config.DOC_TYPE_CV H) as (e & -> & ->). reflexivity.
    + injection Hj as ->. rewrite Hc. reflexivity.
  - apply load_documents_raises in J as [_ J].
    unfold is_file_not_found. rewrite J. reflexivity.
Qed.

Lemma on_rebuild_success_without_write_witness :
  on_rebuild Sample.base_name Sample.world_no_cvs (Some Sample.both)
             (Some Sample.analyzer)
  = (RebuildSuccess, Some Sample.both, None).
Proof.
  apply (@on_rebuild_success_without_write Z Sample.base_name
           Sample.world_no_cvs (Some Sample.both) (Some Sample.analyzer)).
  right. left. reflexivity.
Defined.

(** X21: the name of the downloaded report has no blank in it, whatever
    the role: it is [skill_gap_report_], the role in lower case with each
    blank turned into an underscore, and [.md]. *)
Theorem report_file_name_no_blank
        (str_lower : text -> text) (selected_role : text) :
  ~ In 32%N (report_file_name str_lower selected_role) /\
  length (report_file_name str_lower selected_role)
  = (17 + length (str_lower selected_role) + 3)%nat.
Proof.
  unfold report_file_name, replace_spaces. split.
  - intros H. apply in_app_or in H as [H|H].
    + repeat (destruct H as [H|H]; [discriminate H|]). exact H.
    + apply in_app_or in H as [H|H].
      * apply in_map_iff in H as (c & Hc & _).
        destruct (c =? 32)%N eqn:E; [discriminate Hc|].
        apply N.eqb_neq in E. congruence.
      * repeat (destruct H as [H|H]; [discriminate H|]). exact H.
  - rewrite !length_app, length_map. reflexivity.
Qed.

(** X22: with an analyzer in the session state, the handler does not
    construct one: the embedding model, the store handle and the chat
    client the environment would give play no part in the result. *)
Theorem on_analyze_uses_cached_analyzer
        (Vec : Type) (nearer : Vec -> Vec -> Vec -> bool)
        (CHROMA_PERSIST_DIR : text) (str_lower : text -> text)
        (env env' : Env Vec) (st : Chroma.store Vec)
        (analyzer : SkillGapAnalyzer Vec) (selected_role cv_text : text) :
  st_secrets_get env = st_secrets_get env' ->
  getenv env = getenv env' ->
  on_analyze nearer CHROMA_PERSIST_DIR str_lower env st (Some analyzer)
             selected_role cv_text
  = on_analyze nearer CHROMA_PERSIST_DIR str_lower env' st (Some analyzer)
               selected_role cv_text.
Proof. intros Hs Hg. unfold on_analyze. now rewrite Hs, Hg. Qed.

Lemma on_analyze_uses_cached_analyzer_witness :
  on_analyze Sample.nearer Sample.persist_dir Sample.ascii_lower
             Sample.env_with_key (Some Sample.both) (Some Sample.analyzer)
             Sample.role Sample.cv_text
  = on_analyze Sample.nearer Sample.persist_dir Sample.ascii_lower
               Sample.env_broken (Some Sample.both) (Some Sample.analyzer)
               Sample.role Sample.cv_text.
Proof.
  apply (@on_analyze_uses_cached_analyzer Z Sample.nearer Sample.persist_dir
           Sample.ascii_lower Sample.env_with_key Sample.env_broken
           (Some Sample.both) Sample.analyzer Sample.role Sample.cv_text).
  - reflexivity.
  - reflexivity.
Defined.
